(** * Replay: the Safari Web Push icon-set generator

    A shallow embedding of [scripts/generate-apns-iconset.py]: the PNG
    encoder ([_chunk], [_encode_png]) and the workflow ([main]) that writes
    one solid-colour PNG per entry of [SIZES].

    Python values are modelled as follows.
    - [bytes] is [list byte]; an [int] is [Z] (unbounded, as in Python).
    - A raised exception is the [Raise] case of [result]; the code catches
      nothing, so an exception ends the computation it occurs in.
    - [struct.pack] and [zlib.crc32] are embedded executably from their
      documented behaviour; [zlib.compress] is a parameter of the encoder
      (a [Variable] of the section), since its output is fixed by the zlib
      library and not by this program.
    - The file system and the console are an explicit [world] threaded
      through [main].
    - [_encode_png] has the memory it asks for; [Machine._encode_png] is
      the same function with every [bytes] object it builds asked of the
      machine, which may answer [MemoryError]. *)

From Stdlib Require Import ZArith Lia.
From Stdlib Require Import Strings.Byte Strings.Ascii.
From stdpp Require Import gmap strings list pretty.

Local Open Scope Z_scope.

(** ** Exceptions and results *)

Inductive exn : Type :=
  | StructError          (* struct.error *)
  | ValueError           (* bytes() of an int outside range(256) *)
  | FileExistsError
  | FileNotFoundError
  | NotADirectoryError
  | IsADirectoryError
  | MemoryError.         (* a bytes object the machine does not grant *)

(** The outcome of a computation that can fail with an error of type [E]. *)
Inductive outcome (E A : Type) : Type :=
  | Ok (a : A)
  | Raise (e : E).
Arguments Ok {E A} a.
Arguments Raise {E A} e.

#[global] Instance outcome_ret {E} : MRet (outcome E) := fun _ a => Ok a.
#[global] Instance outcome_bind {E} : MBind (outcome E) := fun _ _ f m =>
  match m with
  | Ok a => f a
  | Raise e => Raise e
  end.

(** A Python computation: a value, or a raised exception. *)
Abbreviation result := (outcome exn).

#[global] Instance byte_eq_dec : EqDecision byte := Byte.byte_eq_dec.

(** ** Bytes *)

Definition byte_val (b : byte) : Z := Z.of_N (Byte.to_N b).

Definition byte_of_Z (z : Z) : byte :=
  default x00 (Byte.of_N (Z.to_N (z mod 256))).

(** Big-endian reading of a byte string (the inverse of [struct.pack]'s
    network byte order). *)
Definition be_to_Z (bs : list byte) : Z :=
  fold_left (fun acc b => acc * 256 + byte_val b) bs 0.

(** A 32-bit value as four bytes, most significant first. *)
Definition be32 (v : Z) : list byte :=
  [byte_of_Z (Z.shiftr v 24); byte_of_Z (Z.shiftr v 16);
   byte_of_Z (Z.shiftr v 8); byte_of_Z v].

(** ** [struct.pack] with a ['!'] (network order, unpadded) format *)

Inductive fmt_code : Type :=
  | FmtI   (* 'I': unsigned int, 4 bytes *)
  | FmtB.  (* 'B': unsigned char, 1 byte *)

Definition pack_one (c : fmt_code) (v : Z) : result (list byte) :=
  match c with
  | FmtI =>
      if (0 <=? v) && (v <=? 0xFFFFFFFF)
      then Ok (be32 v)
      else Raise StructError
  | FmtB =>
      if (0 <=? v) && (v <=? 255) then Ok [byte_of_Z v] else Raise StructError
  end.

Fixpoint struct_pack (fmt : list fmt_code) (args : list Z) : result (list byte) :=
  match fmt, args with
  | [], [] => Ok []
  | c :: fmt', v :: args' =>
      hd ← pack_one c v;
      tl ← struct_pack fmt' args';
      mret (hd ++ tl)
  | _, _ => Raise StructError
  end.

(** ** [zlib.crc32]: the CRC-32 of ISO 3309 and of the PNG standard,
    one bit at a time (reflected polynomial [0xEDB88320]). *)

Definition crc32_poly : Z := 0xEDB88320.

Definition crc32_bit (c : Z) : Z :=
  if Z.testbit c 0 then Z.lxor (Z.shiftr c 1) crc32_poly else Z.shiftr c 1.

Definition crc32_byte (c : Z) (b : byte) : Z :=
  Nat.iter 8 crc32_bit (Z.lxor c (byte_val b)).

Definition crc32 (data : list byte) : Z :=
  Z.lxor (fold_left crc32_byte data 0xFFFFFFFF) 0xFFFFFFFF.

(** ** [bytes(iterable_of_ints)], [bytes * int], [range], [b''.join] *)

Fixpoint bytes_of_ints (xs : list Z) : result (list byte) :=
  match xs with
  | [] => Ok []
  | x :: xs' =>
      if (0 <=? x) && (x <=? 255)
      then (tl ← bytes_of_ints xs'; mret (byte_of_Z x :: tl))
      else Raise ValueError
  end.

(** [b * n]: [n] copies of [b], none when [n <= 0]. *)
Definition bytes_mul (b : list byte) (n : Z) : list byte :=
  concat (replicate (Z.to_nat n) b).

(** [range(n)]: [0, 1, ..., n-1], empty when [n <= 0]. *)
Definition range (n : Z) : list Z := Z.of_nat <$> seq 0 (Z.to_nat n).

Definition join (parts : list (list byte)) : list byte := concat parts.

Definition bytes_lit (s : string) : list byte := String.list_byte_of_string s.

(** ** The module's constants *)

Definition COLOR : list Z := [0x3B; 0x82; 0xF6; 0xFF].

Definition ICONSET_DIR : string := "client/push-package/icon.iconset".

(** A [dict] literal with distinct keys, iterated in insertion order. *)
Definition SIZES : list (string * Z) :=
  [ ("icon_16x16", 16);
    ("icon_16x16@2x", 32);
    ("icon_32x32", 32);
    ("icon_32x32@2x", 64);
    ("icon_128x128", 128);
    ("icon_256x256", 256) ].

Definition PNG_SIGNATURE : list byte :=
  [x89; x50; x4e; x47; x0d; x0a; x1a; x0a].   (* b'\x89PNG\r\n\x1a\n' *)

(** ** The encoder *)

Definition _chunk (tag data : list byte) : result (list byte) :=
  len ← struct_pack [FmtI] [Z.of_nat (length data)];
  crc ← struct_pack [FmtI] [Z.land (crc32 (tag ++ data)) 0xFFFFFFFF];
  mret (len ++ tag ++ data ++ crc).

Section Encoder.

(** [zlib.compress(data, level)]. *)
Variable zlib_compress : list byte -> Z -> list byte.

(** [b''.join(b'\x00' + row * width for _ in range(height))] *)
Definition raw_stream (row : list byte) (width height : Z) : list byte :=
  join ((fun _ => x00 :: bytes_mul row width) <$> range height).

Definition _encode_png (size : Z) : result (list byte) :=
  let width := size in
  let height := size in
  ihdr ← struct_pack [FmtI; FmtI; FmtB; FmtB; FmtB; FmtB; FmtB]
                     [width; height; 8; 6; 0; 0; 0];
  row ← bytes_of_ints COLOR;
  let raw := raw_stream row width height in
  let idat := zlib_compress raw 9 in
  c1 ← _chunk (bytes_lit "IHDR") ihdr;
  c2 ← _chunk (bytes_lit "IDAT") idat;
  c3 ← _chunk (bytes_lit "IEND") [];
  mret (join [PNG_SIGNATURE; c1; c2; c3]).

End Encoder.

(** ** The encoder on a machine

    [_encode_png] above has the memory it asks for, as it has for the
    sizes of [SIZES]. CPython has not: a [bytes] object lies in one block
    of memory, never longer than [sys.maxsize], and the machine may refuse
    a shorter one; the refusal is [MemoryError]. Here the same lines are
    read with every [bytes] object from line 34 on asked for before it is
    there: the raw stream, the compressed stream, the three blocks and the
    file. [granted n] tells whether the machine gives a block of [n]
    bytes. *)


Module Machine.
Section Memory.

Variable granted : Z -> bool.
Variable zlib_compress : list byte -> Z -> list byte.

Definition new_bytes (bs : list byte) : result (list byte) :=
  if granted (Z.of_nat (length bs)) then Ok bs else Raise MemoryError.

Definition _encode_png (size : Z) : result (list byte) :=
  let width := size in
  let height := size in
  ihdr ← struct_pack [FmtI; FmtI; FmtB; FmtB; FmtB; FmtB; FmtB]
                     [width; height; 8; 6; 0; 0; 0];
  row ← bytes_of_ints COLOR;
  raw ← new_bytes (raw_stream row width height);
  idat ← new_bytes (zlib_compress raw 9);
  c1 ← _chunk (bytes_lit "IHDR") ihdr ≫= new_bytes;
  c2 ← _chunk (bytes_lit "IDAT") idat ≫= new_bytes;
  c3 ← _chunk (bytes_lit "IEND") [] ≫= new_bytes;
  new_bytes (join [PNG_SIGNATURE; c1; c2; c3]).

End Memory.
End Machine.

(** ** The world [main] runs in: directories, regular files, and the
    journal of what was done (file-system calls and console lines, oldest
    first). *)

Inductive event : Type :=
  | EvMkdir (path : string)
  | EvWrite (path : string) (data : list byte)
  | EvPrint (line : string).

Record world : Type := World {
  dirs : gset string;
  files : gmap string (list byte);
  journal : list event
}.

(** The proper ancestors of a relative path, outermost first:
    [parents "a/b/c" = ["a"; "a/b"]]. *)
Fixpoint parents_from (acc s : string) : list string :=
  match s with
  | EmptyString => []
  | String c s' =>
      if Ascii.eqb c "/"%char
      then acc :: parents_from (acc +:+ "/") s'
      else parents_from (acc +:+ String c EmptyString) s'
  end.

Definition parents (p : string) : list string := parents_from "" p.

(** [Path(d) / name] for a relative [name]. *)
Definition path_join (d name : string) : string :=
  if String.prefix "/" name then name else d +:+ "/" +:+ name.

(** One level of [mkdir]: an existing directory is kept ([exist_ok=True]);
    a regular file in the way is an error. *)
Definition mkdir_one (target : string) (ds : gset string)
    (fs : gmap string (list byte)) (q : string) : result (gset string) :=
  match fs !! q with
  | Some _ =>
      Raise (if String.eqb q target then FileExistsError else NotADirectoryError)
  | None => Ok ({[ q ]} ∪ ds)
  end.

Fixpoint mkdir_all (target : string) (qs : list string) (ds : gset string)
    (fs : gmap string (list byte)) : result (gset string) :=
  match qs with
  | [] => Ok ds
  | q :: qs' =>
      ds' ← mkdir_one target ds fs q;
      mkdir_all target qs' ds' fs
  end.

(** [Path(p).mkdir(parents=True, exist_ok=True)] *)
Definition mkdir (p : string) (w : world) : result world :=
  ds ← mkdir_all p (parents p ++ [p]) (dirs w) (files w);
  mret (World ds (files w) (journal w ++ [EvMkdir p])).

(** [Path(p).write_bytes(data)]: the file is created or truncated, then
    written; its directory must exist (a one-component path lives in the
    current directory, which does). *)
Definition write_bytes (p : string) (data : list byte) (w : world) : result world :=
  if decide (p ∈ dirs w) then Raise IsADirectoryError
  else
    match last (parents p) with
    | Some d =>
        if decide (d ∈ dirs w)
        then Ok (World (dirs w) (<[p := data]> (files w)) (journal w ++ [EvWrite p data]))
        else Raise (if decide (is_Some (files w !! d))
                    then NotADirectoryError else FileNotFoundError)
    | None =>
        Ok (World (dirs w) (<[p := data]> (files w)) (journal w ++ [EvWrite p data]))
    end.

Definition print (line : string) (w : world) : result world :=
  Ok (World (dirs w) (files w) (journal w ++ [EvPrint line])).

(** [for x in xs: body], the body run for its effect on the world. *)
Fixpoint for_each {A : Type} (xs : list A) (body : A -> world -> result world)
    (w : world) : result world :=
  match xs with
  | [] => Ok w
  | x :: xs' =>
      w' ← body x w;
      for_each xs' body w'
  end.

Section Workflow.

Variable zlib_compress : list byte -> Z -> list byte.

Definition main_body (entry : string * Z) (w : world) : result world :=
  let '(name, size) := entry in
  png_bytes ← _encode_png zlib_compress size;
  let output_path := path_join ICONSET_DIR (name +:+ ".png") in
  w1 ← write_bytes output_path png_bytes w;
  print ("Wrote " +:+ output_path +:+ " (" +:+ pretty size +:+ "x" +:+ pretty size +:+ ")") w1.

Definition main (w : world) : result world :=
  w0 ← mkdir ICONSET_DIR w;
  for_each SIZES main_body w0.

End Workflow.

(** ** A reference PNG reader

    What a reader that follows the PNG standard does with a byte string,
    restricted to the one pixel format this program writes (8-bit
    truecolour with alpha, not interlaced): it checks the signature, splits
    the stream into chunks and verifies each CRC, validates the header,
    inflates the concatenated IDAT data with [zlib_decompress], and undoes
    the scanline filters (all five filter types). *)

Inductive read_error : Type :=
  | BadSignature
  | Truncated
  | BadLength        (* a chunk length above 2^31 - 1 *)
  | BadCrc
  | MissingHeader    (* the first chunk is not IHDR *)
  | InvalidHeader    (* a header field holds a value the standard forbids *)
  | Unsupported      (* a valid header, of a pixel format not decoded here *)
  | UnknownCritical
  | BadData          (* the IDAT data does not inflate to height scanlines *)
  | BadFilter.

Definition rgba : Type := Z * Z * Z * Z.

Record image : Type := Image {
  img_width : Z;
  img_height : Z;
  img_rows : list (list rgba)
}.

Definition pixel_at (img : image) (x y : Z) : option rgba :=
  if (0 <=? x) && (0 <=? y)
  then row ← img_rows img !! Z.to_nat y; row !! Z.to_nat x
  else None.

Fixpoint read_chunks (fuel : nat) (bs : list byte)
    : outcome read_error (list (list byte * list byte)) :=
  match fuel with
  | O => Raise Truncated
  | S fuel' =>
      if Z.of_nat (length bs) <? 12 then Raise Truncated else
      let len := be_to_Z (take 4 bs) in
      if 2 ^ 31 <=? len then Raise BadLength else
      let tag := take 4 (drop 4 bs) in
      let rest := drop 8 bs in
      if Z.of_nat (length rest) <? len + 4 then Raise Truncated else
      let data := take (Z.to_nat len) rest in
      let crc := be_to_Z (take 4 (drop (Z.to_nat len) rest)) in
      if negb (crc =? crc32 (tag ++ data)) then Raise BadCrc else
      if decide (tag = bytes_lit "IEND") then Ok [(tag, data)] else
      cs ← read_chunks fuel' (drop (Z.to_nat len + 4) rest);
      mret ((tag, data) :: cs)
  end.

(** The bit depths the standard allows for each colour type. *)
Definition depth_allowed (ctype depth : Z) : bool :=
  match ctype with
  | 0 => bool_decide (depth ∈ [1; 2; 4; 8; 16])
  | 3 => bool_decide (depth ∈ [1; 2; 4; 8])
  | 2 | 4 | 6 => bool_decide (depth ∈ [8; 16])
  | _ => false
  end.

Definition parse_ihdr (d : list byte) : outcome read_error (Z * Z) :=
  let width := be_to_Z (take 4 d) in
  let height := be_to_Z (take 4 (drop 4 d)) in
  match byte_val <$> drop 8 d with
  | [depth; ctype; compression; filter; interlace] =>
      if negb ((1 <=? width) && (width <? 2 ^ 31) &&
               (1 <=? height) && (height <? 2 ^ 31)) then Raise InvalidHeader
      else if negb (depth_allowed ctype depth) then Raise InvalidHeader
      else if negb ((compression =? 0) && (filter =? 0) && (interlace <=? 1))
      then Raise InvalidHeader
      else if (depth =? 8) && (ctype =? 6) && (interlace =? 0) then Ok (width, height)
      else Raise Unsupported
  | _ => Raise InvalidHeader
  end.

Definition paeth (a b c : Z) : Z :=
  let p := a + b - c in
  let pa := Z.abs (p - a) in
  let pb := Z.abs (p - b) in
  let pc := Z.abs (p - c) in
  if (pa <=? pb) && (pa <=? pc) then a else if pb <=? pc then b else c.

(** Reconstruct a scanline of 4-byte pixels: [recon] holds the bytes
    already reconstructed, [prev] the line above (empty above the first). *)
Fixpoint unfilter_line (ftype : Z) (prev recon line : list Z) : list Z :=
  match line with
  | [] => recon
  | x :: line' =>
      let i := length recon in
      let a := if (i <? 4)%nat then 0 else nth (i - 4) recon 0 in
      let b := nth i prev 0 in
      let c := if (i <? 4)%nat then 0 else nth (i - 4) prev 0 in
      let predictor :=
        match ftype with
        | 0 => 0
        | 1 => a
        | 2 => b
        | 3 => (a + b) / 2
        | _ => paeth a b c
        end in
      unfilter_line ftype prev (recon ++ [(x + predictor) mod 256]) line'
  end.

Fixpoint unfilter_rows (n stride : nat) (prev : list Z) (data : list byte)
    : outcome read_error (list (list Z)) :=
  match n with
  | O => if decide (data = []) then Ok [] else Raise BadData
  | S n' =>
      match data with
      | [] => Raise BadData
      | ft :: rest =>
          if 4 <? byte_val ft then Raise BadFilter else
          if (length rest <? stride)%nat then Raise BadData else
          let line := unfilter_line (byte_val ft) prev [] (byte_val <$> take stride rest) in
          rows ← unfilter_rows n' stride line (drop stride rest);
          mret (line :: rows)
      end
  end.

Fixpoint pixels_of (bs : list Z) : list rgba :=
  match bs with
  | r :: g :: b :: a :: rest => (r, g, b, a) :: pixels_of rest
  | _ => []
  end.

(** A chunk the reader may pass over: ancillary (bit 5 of the first tag
    byte set), or one of the critical chunks it knows. *)
Definition chunk_known (c : list byte * list byte) : bool :=
  match c.1 with
  | t :: _ =>
      Z.testbit (byte_val t) 5 ||
      bool_decide (c.1 ∈ [bytes_lit "IDAT"; bytes_lit "IEND"; bytes_lit "PLTE"])
  | [] => false
  end.

Section Reader.

(** [zlib.decompress], or [None] when the stream is not a zlib stream. *)
Variable zlib_decompress : list byte -> option (list byte).

Definition png_read (bs : list byte) : outcome read_error image :=
  if decide (take 8 bs = PNG_SIGNATURE) then
    chunks ← read_chunks (length bs) (drop 8 bs);
    match chunks with
    | (tag, d) :: rest =>
        if decide (tag = bytes_lit "IHDR") then
          '(width, height) ← parse_ihdr d;
          if forallb chunk_known rest then
            let idat := concat (snd <$> filter (fun c => c.1 = bytes_lit "IDAT") rest) in
            match zlib_decompress idat with
            | Some raw =>
                rows ← unfilter_rows (Z.to_nat height) (4 * Z.to_nat width) [] raw;
                mret (Image width height (pixels_of <$> rows))
            | None => Raise BadData
            end
          else Raise UnknownCritical
        else Raise MissingHeader
    | [] => Raise MissingHeader
    end
  else Raise BadSignature.

End Reader.

(** ** A reference zlib codec

    The simplest codec the zlib format (RFC 1950) admits: the data is
    carried in stored (uncompressed) deflate blocks of at most 65535 bytes
    (RFC 1951, section 3.2.4), followed by its Adler-32 checksum. It gives
    the encoder's and the reader's zlib parameters a concrete value. *)

Module Stored.

Definition adler32 (data : list byte) : Z :=
  let '(a, b) :=
    fold_left (fun '(a, b) x =>
                 let a' := (a + byte_val x) mod 65521 in (a', (b + a') mod 65521))
              data (1, 0) in
  b * 65536 + a.

(** A 16-bit value, least significant byte first. *)
Definition le16 (v : Z) : list byte := [byte_of_Z v; byte_of_Z (Z.shiftr v 8)].

(** The most bytes one stored block holds. *)
Definition block_max : nat := Z.to_nat 65535.

Fixpoint blocks (fuel : nat) (data : list byte) : list byte :=
  match fuel with
  | O => []
  | S fuel' =>
      if Z.of_nat (length data) <=? 65535
      then x01 :: le16 (Z.of_nat (length data))
               ++ le16 (65535 - Z.of_nat (length data)) ++ data
      else x00 :: le16 65535 ++ le16 0
               ++ take block_max data ++ blocks fuel' (drop block_max data)
  end.

Definition compress (data : list byte) (level : Z) : list byte :=
  [x78; x01] ++ blocks (S (length data)) data ++ be32 (adler32 data).

Fixpoint inflate (fuel : nat) (bs : list byte) : option (list byte * list byte) :=
  match fuel with
  | O => None
  | S fuel' =>
      match bs with
      | hdr :: l0 :: l1 :: n0 :: n1 :: rest =>
          let len := byte_val l0 + 256 * byte_val l1 in
          let nlen := byte_val n0 + 256 * byte_val n1 in
          if negb (Z.land (byte_val hdr) 6 =? 0) then None
          else if negb (len + nlen =? 65535) then None
          else if Z.of_nat (length rest) <? len then None
          else
            let blk := take (Z.to_nat len) rest in
            let rest' := drop (Z.to_nat len) rest in
            if Z.testbit (byte_val hdr) 0 then Some (blk, rest')
            else '(more, rest'') ← inflate fuel' rest'; Some (blk ++ more, rest'')
      | _ => None
      end
  end.

Definition decompress (bs : list byte) : option (list byte) :=
  match bs with
  | cmf :: flg :: body =>
      if (Z.land (byte_val cmf) 15 =? 8)
         && ((byte_val cmf * 256 + byte_val flg) mod 31 =? 0)
         && negb (Z.testbit (byte_val flg) 5)
      then
        '(data, trailer) ← inflate (length body) body;
        if (Z.of_nat (length trailer) =? 4) && (be_to_Z trailer =? adler32 data)
        then Some data else None
      else None
  | _ => None
  end.

End Stored.

(** ** The file layout, in the words of the format

    These follow the description of the format, not the code: the theorems
    below compare them with what [_chunk] and [_encode_png] compute. *)

(** A block: the payload's length, the tag, the payload, and the CRC-32 of
    tag and payload, both integers as four big-endian bytes. *)
Definition block (tag payload : list byte) : list byte :=
  be32 (Z.of_nat (length payload)) ++ tag ++ payload ++ be32 (crc32 (tag ++ payload)).

(** The colour as the four bytes of one pixel. *)
Definition pixel : list byte := [x3b; x82; xf6; xff].

(** One scanline: the filter byte 0 ("none"), then [size] pixels. *)
Definition scanline (size : Z) : list byte :=
  x00 :: concat (replicate (Z.to_nat size) pixel).

(** The uncompressed pixel stream: [size] scanlines. *)
Definition pixel_stream (size : Z) : list byte :=
  concat (replicate (Z.to_nat size) (scanline size)).

(** The 13 bytes of the header: width, height, bit depth 8, colour type 6
    (truecolour with alpha), compression 0, filter 0, interlace 0. *)
Definition header_payload (size : Z) : list byte :=
  be32 size ++ be32 size ++ [x08; x06; x00; x00; x00].

(** The whole file around a given compressed stream. *)
Definition png_layout (size : Z) (idat : list byte) : list byte :=
  PNG_SIGNATURE ++ block (bytes_lit "IHDR") (header_payload size)
                ++ block (bytes_lit "IDAT") idat
                ++ block (bytes_lit "IEND") [].

(** ** What the theorems speak of *)

(** The image that is one colour all over. *)
Definition solid_rows (size : Z) (c : rgba) : list (list rgba) :=
  replicate (Z.to_nat size) (replicate (Z.to_nat size) c).

(** The path of the file written for an entry, its console line, and the
    two journal entries it leaves. *)
Definition icon_path (name : string) : string :=
  path_join ICONSET_DIR (name +:+ ".png").

Definition status_line (name : string) (size : Z) : string :=
  "Wrote " +:+ icon_path name +:+ " (" +:+ pretty size +:+ "x" +:+ pretty size +:+ ")".

Definition entry_events (zc : list byte -> Z -> list byte) (entry : string * Z)
    : list event :=
  let png := png_layout entry.2 (zc (pixel_stream entry.2) 9) in
  [EvWrite (icon_path entry.1) png; EvPrint (status_line entry.1 entry.2)].

Definition entry_file (zc : list byte -> Z -> list byte)
    (fs : gmap string (list byte)) (entry : string * Z) : gmap string (list byte) :=
  <[icon_path entry.1 := png_layout entry.2 (zc (pixel_stream entry.2) 9)]> fs.

(** What an entry needs of the world to be written. *)
Definition entry_ready (zc : list byte -> Z -> list byte) (ds : gset string)
    (entry : string * Z) : Prop :=
  (icon_path entry.1 ∉ ds) /\
  (exists d : string, last (parents (icon_path entry.1)) = Some d /\ (d ∈ ds)) /\
  0 <= entry.2 < 2 ^ 32 /\
  Z.of_nat (length (zc (pixel_stream entry.2) 9)) < 2 ^ 32.

(** A path that differs from the three directories [mkdir] made is a
    directory afterwards only if it was one before. *)
Ltac not_made_by_mkdir Hbefore :=
  let Hel := fresh "Hel" in
  intros Hel;
  repeat (apply elem_of_union in Hel as [Hel|Hel];
          [apply elem_of_singleton in Hel; vm_compute in Hel; discriminate Hel|]);
  exact (Hbefore Hel).

(** Two paths that are written differently are different. *)
Ltac other_icon :=
  let Hk := fresh "Hk" in intros Hk; vm_compute in Hk; discriminate Hk.

(** ** Facts about bytes and [struct.pack] *)

Lemma byte_val_range (b : byte) : 0 <= byte_val b < 256.
Proof.
  unfold byte_val. pose proof (Byte.to_N_bounded b) as H.
  lia.
Qed.

Lemma byte_val_of_Z (z : Z) : byte_val (byte_of_Z z) = z mod 256.
Proof.
  unfold byte_val, byte_of_Z.
  assert (Hr : 0 <= z mod 256 < 256) by (apply Z.mod_pos_bound; lia).
  destruct (Byte.of_N (Z.to_N (z mod 256))) as [b|] eqn:E.
  - apply Byte.to_of_N in E. simpl. rewrite E. lia.
  - apply Byte.of_N_None_iff in E. lia.
Qed.

Lemma byte_of_Z_val (b : byte) : byte_of_Z (byte_val b) = b.
Proof.
  unfold byte_of_Z. pose proof (byte_val_range b) as Hr.
  rewrite Z.mod_small by lia. unfold byte_val.
  rewrite N2Z.id, Byte.of_to_N. reflexivity.
Qed.

Lemma byte_val_inj (a b : byte) : byte_val a = byte_val b -> a = b.
Proof.
  intros H. rewrite <- (byte_of_Z_val a), <- (byte_of_Z_val b), H. reflexivity.
Qed.

Lemma be_to_Z_4 (a b c d : byte) :
  be_to_Z [a; b; c; d] =
  byte_val a * 2 ^ 24 + byte_val b * 2 ^ 16 + byte_val c * 2 ^ 8 + byte_val d.
Proof. unfold be_to_Z. simpl. lia. Qed.

Lemma be32_length (v : Z) : length (be32 v) = 4%nat.
Proof. reflexivity. Qed.

Lemma be_to_Z_be32 (v : Z) : 0 <= v < 2 ^ 32 -> be_to_Z (be32 v) = v.
Proof.
  intros Hv. unfold be32. rewrite be_to_Z_4, !byte_val_of_Z.
  rewrite !Z.shiftr_div_pow2 by lia.
  change (2 ^ 24) with 16777216. change (2 ^ 16) with 65536.
  change (2 ^ 8) with 256. change (2 ^ 32) with 4294967296 in Hv.
  Z.div_mod_to_equations. lia.
Qed.

Lemma pack_I_spec (v : Z) (bs : list byte) :
  struct_pack [FmtI] [v] = Ok bs <-> 0 <= v < 2 ^ 32 /\ bs = be32 v.
Proof.
  simpl. change (2 ^ 32) with 4294967296.
  destruct (0 <=? v) eqn:E1; destruct (v <=? 4294967295) eqn:E2; simpl;
    (split; [intros H; try discriminate | intros [H1 H2]; try lia]).
  - injection H as <-. split; [lia | reflexivity].
  - subst bs. reflexivity.
Qed.

Lemma pack_I_raises (v : Z) :
  struct_pack [FmtI] [v] = Raise StructError <-> v < 0 \/ 2 ^ 32 <= v.
Proof.
  simpl. change (2 ^ 32) with 4294967296.
  destruct (0 <=? v) eqn:E1; destruct (v <=? 4294967295) eqn:E2; simpl;
    (split; [intros H; try discriminate; lia | intros H; try lia; reflexivity]).
Qed.

Lemma crc32_IEND : crc32 (bytes_lit "IEND") = 0xAE426082.
Proof. vm_compute. reflexivity. Qed.

(** ** The CRC stays within 32 bits *)

Lemma lxor_range (n a b : Z) :
  0 <= n -> 0 <= a < 2 ^ n -> 0 <= b < 2 ^ n -> 0 <= Z.lxor a b < 2 ^ n.
Proof.
  intros Hn Ha Hb.
  destruct (Z.eq_dec a 0) as [->|Ha0]; [rewrite Z.lxor_0_l; exact Hb|].
  destruct (Z.eq_dec b 0) as [->|Hb0]; [rewrite Z.lxor_0_r; exact Ha|].
  assert (H0 : 0 <= Z.lxor a b) by (apply Z.lxor_nonneg; lia).
  split; [exact H0|].
  destruct (Z.eq_dec (Z.lxor a b) 0) as [->|Hne]; [lia|].
  apply Z.log2_lt_pow2; [lia|].
  pose proof (Z.log2_lxor a b ltac:(lia) ltac:(lia)) as Hl.
  assert (Hla : Z.log2 a < n) by (apply Z.log2_lt_pow2; lia).
  assert (Hlb : Z.log2 b < n) by (apply Z.log2_lt_pow2; lia).
  lia.
Qed.

Lemma crc32_bit_range (c : Z) : 0 <= c < 2 ^ 32 -> 0 <= crc32_bit c < 2 ^ 32.
Proof.
  intros Hc. unfold crc32_bit, crc32_poly.
  assert (Hs : 0 <= Z.shiftr c 1 < 2 ^ 32).
  { rewrite Z.shiftr_div_pow2 by lia. change (2 ^ 1) with 2.
    change (2 ^ 32) with 4294967296 in *. Z.div_mod_to_equations. lia. }
  destruct (Z.testbit c 0); [|exact Hs].
  apply lxor_range; [lia | exact Hs | ].
  change (2 ^ 32) with 4294967296. lia.
Qed.

Lemma crc32_byte_range (c : Z) (b : byte) :
  0 <= c < 2 ^ 32 -> 0 <= crc32_byte c b < 2 ^ 32.
Proof.
  intros Hc. unfold crc32_byte.
  assert (Hx : 0 <= Z.lxor c (byte_val b) < 2 ^ 32).
  { apply lxor_range; [lia | exact Hc |].
    pose proof (byte_val_range b). change (2 ^ 32) with 4294967296. lia. }
  generalize dependent (Z.lxor c (byte_val b)). intros x Hx.
  do 8 (apply crc32_bit_range in Hx). exact Hx.
Qed.

Lemma crc32_range (data : list byte) : 0 <= crc32 data < 2 ^ 32.
Proof.
  unfold crc32. apply lxor_range; [lia | | change (2 ^ 32) with 4294967296; lia].
  assert (H : 0 <= 0xFFFFFFFF < 2 ^ 32) by (change (2 ^ 32) with 4294967296; lia).
  revert H. generalize 0xFFFFFFFF. induction data as [|b data IH]; intros c Hc.
  - exact Hc.
  - simpl. apply IH, crc32_byte_range, Hc.
Qed.

Lemma crc32_mask (data : list byte) : Z.land (crc32 data) 0xFFFFFFFF = crc32 data.
Proof.
  change 0xFFFFFFFF with (Z.ones 32). rewrite Z.land_ones by lia.
  apply Z.mod_small, crc32_range.
Qed.

(** ** [_chunk] against the layout of a block *)

Lemma chunk_spec (tag data out : list byte) :
  _chunk tag data = Ok out <->
  Z.of_nat (length data) < 2 ^ 32 /\ out = block tag data.
Proof.
  unfold _chunk, block. rewrite crc32_mask.
  destruct (struct_pack [FmtI] [Z.of_nat (length data)]) as [len|e] eqn:Elen.
  - apply pack_I_spec in Elen as [Hlen ->].
    destruct (struct_pack [FmtI] [crc32 (tag ++ data)]) as [crc|e] eqn:Ecrc.
    + apply pack_I_spec in Ecrc as [_ ->]. simpl. split.
      * intros [= <-]. split; [lia | reflexivity].
      * intros [_ ->]. reflexivity.
    + exfalso. pose proof (crc32_range (tag ++ data)) as Hr.
      pose proof (proj2 (pack_I_spec (crc32 (tag ++ data)) _) (conj Hr eq_refl)).
      congruence.
  - simpl. split; [discriminate|]. intros [Hlen _].
    pose proof (proj2 (pack_I_spec (Z.of_nat (length data)) _)
                  (conj (conj (Nat2Z.is_nonneg _) Hlen) eq_refl)).
    congruence.
Qed.

Lemma chunk_returns (tag data : list byte) :
  Z.of_nat (length data) < 2 ^ 32 -> _chunk tag data = Ok (block tag data).
Proof. intros H. apply chunk_spec. split; [exact H | reflexivity]. Qed.

Lemma chunk_raises (tag data : list byte) :
  2 ^ 32 <= Z.of_nat (length data) -> _chunk tag data = Raise StructError.
Proof.
  intros H. unfold _chunk.
  rewrite (proj2 (pack_I_raises (Z.of_nat (length data)))) by lia. reflexivity.
Qed.

Lemma block_length (tag data : list byte) :
  length (block tag data) = (length tag + length data + 8)%nat.
Proof. unfold block. rewrite !length_app, !be32_length. lia. Qed.

(** ** [_encode_png] against the layout of the file *)

Lemma header_pack (size : Z) :
  struct_pack [FmtI; FmtI; FmtB; FmtB; FmtB; FmtB; FmtB] [size; size; 8; 6; 0; 0; 0] =
  if (0 <=? size) && (size <=? 0xFFFFFFFF)
  then Ok (header_payload size) else Raise StructError.
Proof.
  cbn [struct_pack pack_one].
  destruct ((0 <=? size) && (size <=? 0xFFFFFFFF)); reflexivity.
Qed.

Lemma fmap_const_replicate {A B : Type} (c : B) (l : list A) :
  (fun _ => c) <$> l = replicate (length l) c.
Proof. induction l as [|x l IH]; simpl; [reflexivity | f_equal; exact IH]. Qed.

Lemma range_length (n : Z) : length (range n) = Z.to_nat n.
Proof. unfold range. rewrite length_fmap, length_seq. reflexivity. Qed.

Lemma raw_stream_pixels (size : Z) : raw_stream pixel size size = pixel_stream size.
Proof.
  unfold raw_stream, pixel_stream, scanline, join, bytes_mul.
  rewrite fmap_const_replicate, range_length. reflexivity.
Qed.

Lemma concat_replicate_length {A : Type} (n : nat) (l : list A) :
  length (concat (replicate n l)) = (n * length l)%nat.
Proof. induction n as [|n IH]; simpl; [reflexivity | rewrite length_app, IH; lia]. Qed.

Lemma scanline_length (size : Z) :
  0 <= size -> Z.of_nat (length (scanline size)) = 1 + 4 * size.
Proof.
  intros H. unfold scanline. cbn [length].
  rewrite concat_replicate_length. change (length pixel) with 4%nat. lia.
Qed.

Lemma pixel_stream_length (size : Z) :
  0 <= size -> Z.of_nat (length (pixel_stream size)) = size * (1 + 4 * size).
Proof.
  intros H. unfold pixel_stream. rewrite concat_replicate_length.
  pose proof (scanline_length size H). nia.
Qed.

Lemma join_4 (a b c d : list byte) : join [a; b; c; d] = a ++ b ++ c ++ d.
Proof. unfold join. cbn [concat]. rewrite app_nil_r. reflexivity. Qed.

Lemma bind_Ok {E A B : Type} (x : A) (f : A -> outcome E B) : (Ok x ≫= f) = f x.
Proof. reflexivity. Qed.

Lemma bind_Raise {E A B : Type} (e : E) (f : A -> outcome E B) :
  (Raise e ≫= f) = Raise e.
Proof. reflexivity. Qed.

Lemma color_bytes : bytes_of_ints COLOR = Ok pixel.
Proof. reflexivity. Qed.

Lemma header_payload_length (size : Z) : length (header_payload size) = 13%nat.
Proof. reflexivity. Qed.

(** Every run of [_encode_png] is one of two: the file, when the size and
    the length of the compressed stream fit 32 bits, or [struct.error]. *)
Lemma encode_png_cases (zc : list byte -> Z -> list byte) (size : Z) :
  let idat := zc (pixel_stream size) 9 in
  (0 <= size < 2 ^ 32 /\ Z.of_nat (length idat) < 2 ^ 32 /\
   _encode_png zc size = Ok (png_layout size idat))
  \/
  ((size < 0 \/ 2 ^ 32 <= size \/ 2 ^ 32 <= Z.of_nat (length idat)) /\
   _encode_png zc size = Raise StructError).
Proof.
  intros idat. unfold _encode_png. rewrite header_pack.
  assert (H32 : 2 ^ 32 = 4294967296) by reflexivity.
  destruct ((0 <=? size) && (size <=? 0xFFFFFFFF)) eqn:E.
  - apply andb_true_iff in E as [E1 E2].
    apply Z.leb_le in E1. apply Z.leb_le in E2.
    rewrite bind_Ok, color_bytes, bind_Ok, raw_stream_pixels. fold idat.
    rewrite (chunk_returns (bytes_lit "IHDR") (header_payload size)), bind_Ok
      by (rewrite header_payload_length; lia).
    destruct (Z_lt_ge_dec (Z.of_nat (length idat)) (2 ^ 32)) as [Hlt|Hge].
    + left. rewrite (chunk_returns _ idat Hlt), bind_Ok.
      rewrite (chunk_returns _ []), bind_Ok by (cbn [length]; lia).
      split; [lia|]. split; [lia|].
      rewrite join_4. reflexivity.
    + right. rewrite (chunk_raises _ idat), bind_Raise by lia.
      split; [lia | reflexivity].
  - right. rewrite bind_Raise. split; [|reflexivity].
    apply andb_false_iff in E as [E|E]; [apply Z.leb_gt in E | apply Z.leb_gt in E]; lia.
Qed.

Lemma terminator_bytes :
  block (bytes_lit "IEND") [] =
  [x00; x00; x00; x00; x49; x45; x4e; x44; xae; x42; x60; x82].
Proof. vm_compute. reflexivity. Qed.

Lemma header_fields (size : Z) :
  0 <= size < 2 ^ 32 ->
  be_to_Z (take 4 (header_payload size)) = size /\
  be_to_Z (take 4 (drop 4 (header_payload size))) = size /\
  byte_val <$> drop 8 (header_payload size) = [8; 6; 0; 0; 0].
Proof.
  intros H.
  change (take 4 (header_payload size)) with (be32 size).
  change (take 4 (drop 4 (header_payload size))) with (be32 size).
  rewrite be_to_Z_be32 by exact H.
  split; [reflexivity|]. split; reflexivity.
Qed.

(** ** The encoder's claims *)

(** C6. Every block [_chunk] emits is the payload's length as four
    big-endian bytes, the tag, the payload, and the CRC-32 of tag and
    payload as four big-endian bytes, 12 bytes more than the payload;
    [_chunk] raises [struct.error] only for a payload of 2^32 bytes or
    more. The three blocks of [_encode_png] are built by [_chunk] with the
    four-byte tags IHDR, IDAT and IEND. *)
Theorem chunk_wrapping (tag data : list byte) :
  length tag = 4%nat ->
  match _chunk tag data with
  | Ok out =>
      exists len4 crc4 : list byte,
        out = len4 ++ tag ++ data ++ crc4 /\
        length len4 = 4%nat /\ be_to_Z len4 = Z.of_nat (length data) /\
        length crc4 = 4%nat /\ be_to_Z crc4 = crc32 (tag ++ data) /\
        length out = (length data + 12)%nat
  | Raise e => e = StructError /\ 2 ^ 32 <= Z.of_nat (length data)
  end.
Proof.
  intros Htag.
  destruct (Z_lt_ge_dec (Z.of_nat (length data)) (2 ^ 32)) as [Hlt|Hge].
  - rewrite (chunk_returns tag data Hlt).
    exists (be32 (Z.of_nat (length data))), (be32 (crc32 (tag ++ data))).
    split; [reflexivity|].
    split; [apply be32_length|].
    split; [apply be_to_Z_be32; lia|].
    split; [apply be32_length|].
    split; [apply be_to_Z_be32, crc32_range|].
    rewrite block_length, Htag. lia.
  - rewrite (chunk_raises tag data) by lia. split; [reflexivity | lia].
Qed.

Lemma chunk_wrapping_witness :
  length (bytes_lit "IEND") = 4%nat /\
  exists out : list byte,
    _chunk (bytes_lit "IEND") [] = Ok out /\ length out = 12%nat.
Proof.
  split; [reflexivity|].
  pose proof (chunk_wrapping (bytes_lit "IEND") [] eq_refl) as H.
  destruct (_chunk (bytes_lit "IEND") []) as [out|e].
  - destruct H as (len4 & crc4 & _ & _ & _ & _ & _ & Hlen).
    exists out. split; [reflexivity | exact Hlen].
  - destruct H as [_ H]. exfalso. revert H. apply Z.lt_nge. reflexivity.
Defined.

(** C3. For every positive size, what [_encode_png] returns is the 8-byte
    signature 89 'P' 'N' 'G' 0D 0A 1A 0A, then the header block, then the
    data block, then the empty terminator block (whose 12 bytes are fixed),
    each block as [_chunk] builds it, and nothing else. The only other
    outcome is [struct.error], raised when the size or the length of the
    compressed stream does not fit 32 bits. *)
Theorem encode_png_block_order (zc : list byte -> Z -> list byte) (size : Z) :
  0 < size ->
  match _encode_png zc size with
  | Ok bs =>
      exists ihdr hdr dat trl : list byte,
        _chunk (bytes_lit "IHDR") ihdr = Ok hdr /\
        _chunk (bytes_lit "IDAT") (zc (pixel_stream size) 9) = Ok dat /\
        _chunk (bytes_lit "IEND") [] = Ok trl /\
        trl = [x00; x00; x00; x00; x49; x45; x4e; x44; xae; x42; x60; x82] /\
        bs = [x89; x50; x4e; x47; x0d; x0a; x1a; x0a] ++ hdr ++ dat ++ trl
  | Raise e =>
      e = StructError /\
      (2 ^ 32 <= size \/ 2 ^ 32 <= Z.of_nat (length (zc (pixel_stream size) 9)))
  end.
Proof.
  intros Hpos.
  destruct (encode_png_cases zc size) as [(Hs & Hl & ->) | (Hc & ->)].
  - exists (header_payload size), (block (bytes_lit "IHDR") (header_payload size)),
      (block (bytes_lit "IDAT") (zc (pixel_stream size) 9)),
      (block (bytes_lit "IEND") []).
    split; [apply chunk_returns; rewrite header_payload_length; lia|].
    split; [apply chunk_returns, Hl|].
    split; [apply chunk_returns; cbn [length]; lia|].
    split; [apply terminator_bytes | reflexivity].
  - split; [reflexivity | lia].
Qed.

Lemma encode_png_block_order_witness :
  0 < 16 /\
  exists bs : list byte,
    _encode_png Stored.compress 16 = Ok bs /\ take 8 bs = PNG_SIGNATURE.
Proof.
  split; [reflexivity|].
  pose proof (encode_png_block_order Stored.compress 16 eq_refl) as H.
  destruct (_encode_png Stored.compress 16) as [bs|e].
  - destruct H as (ihdr & hdr & dat & trl & _ & _ & _ & _ & ->).
    eexists. split; reflexivity.
  - exfalso. destruct H as [_ [H|H]]; revert H; apply Z.lt_nge;
      vm_compute; reflexivity.
Defined.

(** C4. For every positive size, the payload of the header block of what
    [_encode_png] returns is 13 bytes: the size twice (width, height), each
    as a four-byte big-endian integer, then bit depth 8, colour type 6,
    and compression, filter and interlace 0. *)
Theorem encode_png_header (zc : list byte -> Z -> list byte) (size : Z) :
  0 < size ->
  match _encode_png zc size with
  | Ok bs =>
      exists ihdr hdr rest : list byte,
        bs = PNG_SIGNATURE ++ hdr ++ rest /\
        _chunk (bytes_lit "IHDR") ihdr = Ok hdr /\
        length ihdr = 13%nat /\
        be_to_Z (take 4 ihdr) = size /\
        be_to_Z (take 4 (drop 4 ihdr)) = size /\
        byte_val <$> drop 8 ihdr = [8; 6; 0; 0; 0]
  | Raise e =>
      e = StructError /\
      (2 ^ 32 <= size \/ 2 ^ 32 <= Z.of_nat (length (zc (pixel_stream size) 9)))
  end.
Proof.
  intros Hpos.
  destruct (encode_png_cases zc size) as [(Hs & Hl & ->) | (Hc & ->)].
  - exists (header_payload size), (block (bytes_lit "IHDR") (header_payload size)),
      (block (bytes_lit "IDAT") (zc (pixel_stream size) 9) ++ block (bytes_lit "IEND") []).
    split; [reflexivity|].
    split; [apply chunk_returns; rewrite header_payload_length; lia|].
    split; [apply header_payload_length|].
    apply header_fields, Hs.
  - split; [reflexivity | lia].
Qed.

Lemma encode_png_header_witness :
  0 < 16 /\
  exists ihdr hdr rest : list byte,
    _encode_png Stored.compress 16 = Ok (PNG_SIGNATURE ++ hdr ++ rest) /\
    _chunk (bytes_lit "IHDR") ihdr = Ok hdr /\
    be_to_Z (take 4 ihdr) = 16 /\ be_to_Z (take 4 (drop 4 ihdr)) = 16.
Proof.
  split; [reflexivity|].
  pose proof (encode_png_header Stored.compress 16 eq_refl) as H.
  destruct (_encode_png Stored.compress 16) as [bs|e].
  - destruct H as (ihdr & hdr & rest & -> & Hc & _ & Hw & Hh & _).
    exists ihdr, hdr, rest. repeat split; assumption.
  - exfalso. destruct H as [_ [H|H]]; revert H; apply Z.lt_nge;
      vm_compute; reflexivity.
Defined.

(** C5. For every positive size, the payload of the data block of what
    [_encode_png] returns is [zlib.compress], at level 9, of the pixel
    stream: [size] scanlines, each the filter byte 00 followed by [size]
    copies of the bytes 3B 82 F6 FF; the stream is [size * (1 + 4 * size)]
    bytes long. The data block stands between the 25-byte header block and
    the 12-byte terminator block. *)
Theorem encode_png_data (zc : list byte -> Z -> list byte) (size : Z) :
  0 < size ->
  let raw :=
    concat (replicate (Z.to_nat size)
              (x00 :: concat (replicate (Z.to_nat size) [x3b; x82; xf6; xff]))) in
  Z.of_nat (length raw) = size * (1 + 4 * size) /\
  raw = raw_stream pixel size size /\
  match _encode_png zc size with
  | Ok bs =>
      exists hdr dat trl : list byte,
        bs = PNG_SIGNATURE ++ hdr ++ dat ++ trl /\
        length hdr = 25%nat /\ length trl = 12%nat /\
        _chunk (bytes_lit "IDAT") (zc raw 9) = Ok dat
  | Raise e =>
      e = StructError /\ (2 ^ 32 <= size \/ 2 ^ 32 <= Z.of_nat (length (zc raw 9)))
  end.
Proof.
  intros Hpos raw. change raw with (pixel_stream size).
  split; [apply pixel_stream_length; lia|].
  split; [symmetry; apply raw_stream_pixels|].
  destruct (encode_png_cases zc size) as [(Hs & Hl & ->) | (Hc & ->)].
  - exists (block (bytes_lit "IHDR") (header_payload size)),
      (block (bytes_lit "IDAT") (zc (pixel_stream size) 9)),
      (block (bytes_lit "IEND") []).
    split; [reflexivity|].
    split; [rewrite block_length, header_payload_length; reflexivity|].
    split; [rewrite block_length; reflexivity|].
    apply chunk_returns, Hl.
  - split; [reflexivity | lia].
Qed.

Lemma encode_png_data_witness :
  0 < 16 /\
  exists hdr dat trl : list byte,
    _encode_png Stored.compress 16 = Ok (PNG_SIGNATURE ++ hdr ++ dat ++ trl) /\
    _chunk (bytes_lit "IDAT") (Stored.compress (pixel_stream 16) 9) = Ok dat.
Proof.
  split; [reflexivity|].
  pose proof (encode_png_data Stored.compress 16 eq_refl) as H.
  cbv zeta in H. destruct H as (_ & _ & H).
  destruct (_encode_png Stored.compress 16) as [bs|e].
  - destruct H as (hdr & dat & trl & -> & _ & _ & Hd).
    exists hdr, dat, trl. split; [reflexivity | exact Hd].
  - exfalso. destruct H as [_ [H|H]]; revert H; apply Z.lt_nge;
      vm_compute; reflexivity.
Defined.

(** C7. [_encode_png] is a function of its argument: besides the size and
    the constant colour its result depends on nothing but the bytes
    [zlib.compress] returns for the pixel stream. Two invocations with the
    same size, in which the compressor answers alike, give the same bytes
    or raise the same exception. *)
Theorem encode_png_deterministic (zc1 zc2 : list byte -> Z -> list byte) (size : Z) :
  zc1 (raw_stream pixel size size) 9 = zc2 (raw_stream pixel size size) 9 ->
  _encode_png zc1 size = _encode_png zc2 size.
Proof.
  intros H. unfold _encode_png.
  destruct (struct_pack [FmtI; FmtI; FmtB; FmtB; FmtB; FmtB; FmtB]
              [size; size; 8; 6; 0; 0; 0]) as [ihdr|e].
  - rewrite !bind_Ok, color_bytes, !bind_Ok, H. reflexivity.
  - rewrite !bind_Raise. reflexivity.
Qed.

Lemma encode_png_deterministic_witness :
  Stored.compress (raw_stream pixel 2 2) 9 = Stored.compress (raw_stream pixel 2 2) 0 /\
  _encode_png Stored.compress 2 = _encode_png (fun d _ => Stored.compress d 0) 2.
Proof.
  split; [reflexivity|].
  apply (encode_png_deterministic Stored.compress (fun d _ => Stored.compress d 0) 2).
  reflexivity.
Defined.

(** ** The reference reader on the encoder's output *)

Lemma block_parts (tag data rest : list byte) :
  length tag = 4%nat ->
  let len := Z.of_nat (length data) in
  let bs := block tag data ++ rest in
  Z.of_nat (length bs) = 12 + len + Z.of_nat (length rest) /\
  take 4 bs = be32 len /\
  take 4 (drop 4 bs) = tag /\
  take (Z.to_nat len) (drop 8 bs) = data /\
  take 4 (drop (Z.to_nat len) (drop 8 bs)) = be32 (crc32 (tag ++ data)) /\
  drop (Z.to_nat len + 4) (drop 8 bs) = rest.
Proof.
  intros Htag len bs. subst len bs. unfold block.
  rewrite Nat2Z.id, <- !app_assoc.
  set (l4 := be32 (Z.of_nat (length data))).
  set (c4 := be32 (crc32 (tag ++ data))).
  assert (Hl4 : length l4 = 4%nat) by reflexivity.
  assert (Hc4 : length c4 = 4%nat) by reflexivity.
  clearbody l4 c4.
  assert (H8 : drop 8 (l4 ++ tag ++ data ++ c4 ++ rest) = data ++ c4 ++ rest).
  { change 8%nat with (4 + 4)%nat. rewrite <- drop_drop.
    rewrite (drop_app_length' l4) by (symmetry; exact Hl4).
    rewrite (drop_app_length' tag) by (symmetry; exact Htag). reflexivity. }
  rewrite H8.
  split; [rewrite !length_app, Hl4, Htag, Hc4; lia|].
  split; [apply take_app_length'; symmetry; exact Hl4|].
  split; [rewrite (drop_app_length' l4) by (symmetry; exact Hl4);
          apply take_app_length'; symmetry; exact Htag|].
  split; [apply take_app_length'; reflexivity|].
  split; [rewrite (drop_app_length' data) by reflexivity;
          apply take_app_length'; symmetry; exact Hc4|].
  rewrite <- drop_drop, (drop_app_length' data) by reflexivity.
  apply drop_app_length'. symmetry; exact Hc4.
Qed.

Lemma read_chunks_step (fuel : nat) (tag data rest : list byte) :
  length tag = 4%nat ->
  Z.of_nat (length data) < 2 ^ 31 ->
  read_chunks (S fuel) (block tag data ++ rest) =
  if decide (tag = bytes_lit "IEND") then Ok [(tag, data)]
  else cs ← read_chunks fuel rest; mret ((tag, data) :: cs).
Proof.
  intros Htag Hlen.
  destruct (block_parts tag data rest Htag) as (Hn & H1 & H2 & H3 & H4 & H5).
  cbv zeta in Hn, H1, H2, H3, H4, H5.
  unfold read_chunks; fold read_chunks.
  rewrite H1, be_to_Z_be32 by (change (2 ^ 32) with (2 * 2 ^ 31); lia).
  rewrite H2, H3, H4, H5, Hn.
  rewrite be_to_Z_be32 by apply crc32_range.
  rewrite (proj2 (Z.ltb_ge _ 12)) by lia.
  rewrite (proj2 (Z.leb_gt (2 ^ 31) _)) by lia.
  assert (Hrest : Z.of_nat (length (drop 8 (block tag data ++ rest))) =
                  Z.of_nat (length data) + 4 + Z.of_nat (length rest)).
  { rewrite length_drop. lia. }
  rewrite (proj2 (Z.ltb_ge _ _)) by lia.
  rewrite Z.eqb_refl. reflexivity.
Qed.

Lemma read_chunks_layout (fuel : nat) (size : Z) (idat : list byte) :
  (3 <= fuel)%nat ->
  Z.of_nat (length idat) < 2 ^ 31 ->
  read_chunks fuel (drop 8 (png_layout size idat)) =
  Ok [(bytes_lit "IHDR", header_payload size); (bytes_lit "IDAT", idat);
      (bytes_lit "IEND", [])].
Proof.
  intros Hfuel Hlen.
  destruct fuel as [|[|[|fuel]]]; try lia.
  unfold png_layout.
  rewrite (drop_app_length' PNG_SIGNATURE) by reflexivity.
  rewrite read_chunks_step
    by (first [reflexivity | rewrite header_payload_length; reflexivity]).
  destruct (decide (bytes_lit "IHDR" = bytes_lit "IEND")) as [Heq|_];
    [vm_compute in Heq; discriminate Heq|].
  rewrite read_chunks_step by (first [reflexivity | exact Hlen]).
  destruct (decide (bytes_lit "IDAT" = bytes_lit "IEND")) as [Heq|_];
    [vm_compute in Heq; discriminate Heq|].
  rewrite <- (app_nil_r (block (bytes_lit "IEND") [])).
  rewrite read_chunks_step by reflexivity.
  destruct (decide (bytes_lit "IEND" = bytes_lit "IEND")) as [_|Hne];
    [|contradiction].
  rewrite !bind_Ok. reflexivity.
Qed.

Lemma parse_ihdr_header (size : Z) :
  1 <= size < 2 ^ 31 -> parse_ihdr (header_payload size) = Ok (size, size).
Proof.
  intros Hs. unfold parse_ihdr.
  destruct (header_fields size) as (Hw & Hh & Hf);
    [change (2 ^ 32) with (2 * 2 ^ 31); lia|].
  rewrite Hw, Hh, Hf.
  rewrite (proj2 (Z.leb_le 1 size)), (proj2 (Z.ltb_lt size (2 ^ 31))) by lia.
  reflexivity.
Qed.

(** ** Undoing filter type 0 *)

Lemma unfilter_line_none (prev recon line : list Z) :
  unfilter_line 0 prev recon line = recon ++ ((fun x => x mod 256) <$> line).
Proof.
  revert recon. induction line as [|x line IH]; intros recon.
  - cbn [unfilter_line fmap list_fmap]. rewrite app_nil_r. reflexivity.
  - cbn [unfilter_line]. rewrite IH, Z.add_0_r, <- app_assoc. reflexivity.
Qed.

Lemma fmap_byte_val_mod (bs : list byte) :
  (fun x => x mod 256) <$> (byte_val <$> bs) = byte_val <$> bs.
Proof.
  induction bs as [|b bs IH]; [reflexivity|].
  cbn [fmap list_fmap]. f_equal; [|exact IH].
  apply Z.mod_small, byte_val_range.
Qed.

Lemma unfilter_rows_none (n : nat) (row : list byte) (prev : list Z) :
  unfilter_rows n (length row) prev (concat (replicate n (x00 :: row))) =
  Ok (replicate n (byte_val <$> row)).
Proof.
  revert prev. induction n as [|n IH]; intros prev; [reflexivity|].
  cbn [replicate concat app unfilter_rows].
  change (byte_val x00) with 0. change (4 <? 0) with false. cbv iota.
  rewrite length_app.
  rewrite (proj2 (Nat.ltb_ge _ _)) by lia.
  rewrite take_app_length, drop_app_length, IH, bind_Ok.
  rewrite unfilter_line_none, fmap_byte_val_mod. reflexivity.
Qed.

Lemma pixels_of_replicate (k : nat) (r g b a : Z) :
  pixels_of (concat (replicate k [r; g; b; a])) = replicate k (r, g, b, a).
Proof.
  induction k as [|k IH]; [reflexivity|].
  cbn [replicate concat app pixels_of]. rewrite IH. reflexivity.
Qed.

Lemma fmap_concat_replicate {A B : Type} (f : A -> B) (k : nat) (l : list A) :
  f <$> concat (replicate k l) = concat (replicate k (f <$> l)).
Proof.
  induction k as [|k IH]; [reflexivity|].
  cbn [replicate concat]. rewrite fmap_app, IH. reflexivity.
Qed.

Lemma png_layout_length (size : Z) (idat : list byte) :
  length (png_layout size idat) = (57 + length idat)%nat.
Proof.
  unfold png_layout. rewrite !length_app, !block_length, header_payload_length.
  cbn [length]. change (length PNG_SIGNATURE) with 8%nat.
  change (length (bytes_lit "IHDR")) with 4%nat.
  change (length (bytes_lit "IDAT")) with 4%nat.
  change (length (bytes_lit "IEND")) with 4%nat. lia.
Qed.

Lemma png_read_layout (zd : list byte -> option (list byte))
    (size : Z) (idat : list byte) :
  1 <= size < 2 ^ 31 ->
  Z.of_nat (length idat) < 2 ^ 31 ->
  zd idat = Some (pixel_stream size) ->
  png_read zd (png_layout size idat) =
  Ok (Image size size (solid_rows size (0x3B, 0x82, 0xF6, 0xFF))).
Proof.
  intros Hs Hlen Hzd. unfold png_read.
  assert (Hsig : take 8 (png_layout size idat) = PNG_SIGNATURE)
    by (apply take_app_length'; reflexivity).
  rewrite Hsig.
  destruct (decide (PNG_SIGNATURE = PNG_SIGNATURE)) as [_|Hne]; [|contradiction].
  rewrite read_chunks_layout by (first [rewrite png_layout_length; lia | exact Hlen]).
  rewrite bind_Ok. cbv iota beta.
  destruct (decide (bytes_lit "IHDR" = bytes_lit "IHDR")) as [_|Hne]; [|contradiction].
  rewrite parse_ihdr_header, bind_Ok by exact Hs. cbv iota beta.
  assert (Hknown : forallb chunk_known
                     [(bytes_lit "IDAT", idat); (bytes_lit "IEND", @nil byte)] = true)
    by (vm_compute; reflexivity).
  rewrite Hknown.
  assert (Hidat : concat (snd <$> filter (fun c : list byte * list byte =>
                                            c.1 = bytes_lit "IDAT")
                            [(bytes_lit "IDAT", idat); (bytes_lit "IEND", @nil byte)])
                  = idat).
  { rewrite filter_cons_True by reflexivity.
    rewrite filter_cons_False by (cbn [fst]; intros Heq; vm_compute in Heq; discriminate Heq).
    rewrite filter_nil. cbn [fmap list_fmap snd concat]. apply app_nil_r. }
  rewrite Hidat, Hzd.
  unfold pixel_stream, scanline.
  set (n := Z.to_nat size). set (row := concat (replicate n pixel)).
  replace (4 * n)%nat with (length row)
    by (unfold row; rewrite concat_replicate_length; cbn [length pixel]; lia).
  rewrite unfilter_rows_none, bind_Ok. unfold row.
  rewrite fmap_concat_replicate, fmap_replicate.
  change (byte_val <$> pixel) with [0x3B; 0x82; 0xF6; 0xFF].
  rewrite pixels_of_replicate. reflexivity.
Qed.

Lemma pixel_at_solid (size x y : Z) (c : rgba) :
  0 <= x < size -> 0 <= y < size ->
  pixel_at (Image size size (solid_rows size c)) x y = Some c.
Proof.
  intros Hx Hy. unfold pixel_at, solid_rows. cbn [img_rows].
  rewrite (proj2 (Z.leb_le 0 x)), (proj2 (Z.leb_le 0 y)) by lia. cbn [andb].
  rewrite lookup_replicate_2 by lia. cbn [mbind option_bind].
  apply lookup_replicate_2. lia.
Qed.

(** Every size a PNG header can hold decodes to the solid square. *)
Lemma encode_png_decodes_any (zc : list byte -> Z -> list byte)
    (zd : list byte -> option (list byte)) (size : Z) :
  1 <= size < 2 ^ 31 ->
  zd (zc (pixel_stream size) 9) = Some (pixel_stream size) ->
  Z.of_nat (length (zc (pixel_stream size) 9)) < 2 ^ 31 ->
  exists bs : list byte,
    _encode_png zc size = Ok bs /\
    png_read zd bs = Ok (Image size size (solid_rows size (0x3B, 0x82, 0xF6, 0xFF))).
Proof.
  intros Hs Hzd Hlen.
  assert (H31 : 2 ^ 32 = 2 * 2 ^ 31) by reflexivity.
  destruct (encode_png_cases zc size) as [(_ & _ & E) | (Hc & _)]; [|lia].
  exists (png_layout size (zc (pixel_stream size) 9)).
  split; [exact E|]. apply png_read_layout; assumption.
Qed.

(** C1. For every size in 16, 32, 64, 128, 256: what [_encode_png] returns
    is read by the reference PNG reader as an image [size] wide and [size]
    high, every pixel of which is (3B, 82, F6, FF). The zlib pair is a
    parameter: it is assumed that [zlib.decompress] gives back the pixel
    stream from what [zlib.compress] made of it, and that the compressed
    stream is shorter than 2^31 bytes, the longest a PNG chunk may be. *)
Theorem encode_png_decodes (zc : list byte -> Z -> list byte)
    (zd : list byte -> option (list byte)) (size : Z) :
  In size [16; 32; 64; 128; 256] ->
  zd (zc (pixel_stream size) 9) = Some (pixel_stream size) ->
  Z.of_nat (length (zc (pixel_stream size) 9)) < 2 ^ 31 ->
  exists (bs : list byte) (img : image),
    _encode_png zc size = Ok bs /\
    png_read zd bs = Ok img /\
    img_width img = size /\ img_height img = size /\
    forall x y : Z, 0 <= x < size -> 0 <= y < size ->
      pixel_at img x y = Some (0x3B, 0x82, 0xF6, 0xFF).
Proof.
  intros Hin Hzd Hlen.
  assert (Hs : 1 <= size < 2 ^ 31).
  { change (2 ^ 31) with 2147483648.
    cbn [In] in Hin. destruct Hin as [<-|[<-|[<-|[<-|[<-|[]]]]]]; lia. }
  destruct (encode_png_decodes_any zc zd size Hs Hzd Hlen) as (bs & E & R).
  exists bs, (Image size size (solid_rows size (0x3B, 0x82, 0xF6, 0xFF))).
  split; [exact E|]. split; [exact R|].
  split; [reflexivity|]. split; [reflexivity|].
  intros x y Hx Hy. apply pixel_at_solid; assumption.
Qed.

Lemma encode_png_decodes_witness :
  In 16 [16; 32; 64; 128; 256] /\
  Stored.decompress (Stored.compress (pixel_stream 16) 9) = Some (pixel_stream 16) /\
  Z.of_nat (length (Stored.compress (pixel_stream 16) 9)) < 2 ^ 31 /\
  exists (bs : list byte) (img : image),
    _encode_png Stored.compress 16 = Ok bs /\
    png_read Stored.decompress bs = Ok img /\
    pixel_at img 0 0 = Some (0x3B, 0x82, 0xF6, 0xFF) /\
    pixel_at img 15 15 = Some (0x3B, 0x82, 0xF6, 0xFF).
Proof.
  assert (Hin : In 16 [16; 32; 64; 128; 256]) by (left; reflexivity).
  assert (Hzd : Stored.decompress (Stored.compress (pixel_stream 16) 9)
                = Some (pixel_stream 16)) by (vm_compute; reflexivity).
  assert (Hlen : Z.of_nat (length (Stored.compress (pixel_stream 16) 9)) < 2 ^ 31)
    by (vm_compute; reflexivity).
  split; [exact Hin|]. split; [exact Hzd|]. split; [exact Hlen|].
  destruct (encode_png_decodes Stored.compress Stored.decompress 16 Hin Hzd Hlen)
    as (bs & img & E & R & _ & _ & Hpx).
  exists bs, img. split; [exact E|]. split; [exact R|].
  split; apply Hpx; split; reflexivity || (intros H; discriminate H).
Defined.

(** ** Sizes the caller never passes *)

Lemma pixel_stream_zero : pixel_stream 0 = [].
Proof. reflexivity. Qed.

Lemma encode_png_negative (zc : list byte -> Z -> list byte) (size : Z) :
  size < 0 -> _encode_png zc size = Raise StructError.
Proof.
  intros H. unfold _encode_png. rewrite header_pack.
  rewrite (proj2 (Z.leb_gt 0 size)) by lia. cbn [andb]. apply bind_Raise.
Qed.

Lemma parse_ihdr_zero : parse_ihdr (header_payload 0) = Raise InvalidHeader.
Proof. vm_compute. reflexivity. Qed.

Lemma png_read_layout_zero (zd : list byte -> option (list byte)) (idat : list byte) :
  Z.of_nat (length idat) < 2 ^ 31 ->
  png_read zd (png_layout 0 idat) = Raise InvalidHeader.
Proof.
  intros Hlen. unfold png_read.
  assert (Hsig : take 8 (png_layout 0 idat) = PNG_SIGNATURE)
    by (apply take_app_length'; reflexivity).
  rewrite Hsig.
  destruct (decide (PNG_SIGNATURE = PNG_SIGNATURE)) as [_|Hne]; [|contradiction].
  rewrite read_chunks_layout by (first [rewrite png_layout_length; lia | exact Hlen]).
  rewrite bind_Ok. cbv iota beta.
  destruct (decide (bytes_lit "IHDR" = bytes_lit "IHDR")) as [_|Hne]; [|contradiction].
  rewrite parse_ihdr_zero. apply bind_Raise.
Qed.

Lemma layout_zero_header (idat : list byte) :
  be_to_Z (take 4 (drop 16 (png_layout 0 idat))) = 0 /\
  be_to_Z (take 4 (drop 20 (png_layout 0 idat))) = 0.
Proof. split; reflexivity. Qed.

Lemma encode_png_zero_file (zc : list byte -> Z -> list byte) :
  Z.of_nat (length (zc [] 9)) < 2 ^ 31 ->
  _encode_png zc 0 = Ok (png_layout 0 (zc [] 9)) /\
  forall zd : list byte -> option (list byte),
    png_read zd (png_layout 0 (zc [] 9)) = Raise InvalidHeader.
Proof.
  intros Hlen.
  assert (H31 : 2 ^ 32 = 2 * 2 ^ 31) by reflexivity.
  destruct (encode_png_cases zc 0) as [(_ & _ & E) | (Hc & _)].
  - split; [exact E|]. intros zd. apply png_read_layout_zero, Hlen.
  - exfalso. rewrite pixel_stream_zero in Hc. lia.
Qed.

(** C8, as the code has it. A negative size raises [struct.error] (the
    header cannot be packed) and nothing is returned. Size 0 is not
    rejected: [_encode_png] returns a file whose header declares width 0
    and height 0, which the reference reader refuses as an invalid header.
    (The compressed empty stream is assumed shorter than 2^31 bytes.) *)
Theorem encode_png_nonpositive (zc : list byte -> Z -> list byte) (size : Z) :
  size <= 0 ->
  (size < 0 -> _encode_png zc size = Raise StructError) /\
  (size = 0 ->
   Z.of_nat (length (zc [] 9)) < 2 ^ 31 ->
   exists bs : list byte,
     _encode_png zc size = Ok bs /\
     be_to_Z (take 4 (drop 16 bs)) = 0 /\
     be_to_Z (take 4 (drop 20 bs)) = 0 /\
     forall zd : list byte -> option (list byte),
       png_read zd bs = Raise InvalidHeader).
Proof.
  intros Hle. split; [apply encode_png_negative|].
  intros -> Hlen.
  destruct (encode_png_zero_file zc Hlen) as [E R].
  exists (png_layout 0 (zc [] 9)). split; [exact E|].
  destruct (layout_zero_header (zc [] 9)) as [Hw Hh].
  split; [exact Hw|]. split; [exact Hh | exact R].
Qed.

Lemma encode_png_nonpositive_witness :
  0 <= 0 /\
  Z.of_nat (length (Stored.compress [] 9)) < 2 ^ 31 /\
  exists bs : list byte,
    _encode_png Stored.compress 0 = Ok bs /\
    png_read Stored.decompress bs = Raise InvalidHeader.
Proof.
  assert (Hle : 0 <= 0) by (intros H; discriminate H).
  assert (Hlen : Z.of_nat (length (Stored.compress [] 9)) < 2 ^ 31)
    by (vm_compute; reflexivity).
  split; [exact Hle|]. split; [exact Hlen|].
  destruct (encode_png_nonpositive Stored.compress 0 Hle) as [_ H].
  destruct (H eq_refl Hlen) as (bs & E & _ & _ & R).
  exists bs. split; [exact E | apply R].
Defined.

(** C8, as the claim has it, fails at size 0: no error is raised, and what
    is returned is a file the reader refuses. This holds with every
    compressor whose output for the empty stream is shorter than 2^31
    bytes (zlib's is 8 bytes long), the reference codec among them. *)
Lemma encode_png_zero_not_rejected :
  exists size : Z,
    size <= 0 /\
    Z.of_nat (length (Stored.compress [] 9)) < 2 ^ 31 /\
    forall zc : list byte -> Z -> list byte,
      Z.of_nat (length (zc [] 9)) < 2 ^ 31 ->
      exists bs : list byte,
        _encode_png zc size = Ok bs /\
        forall zd : list byte -> option (list byte),
          png_read zd bs = Raise InvalidHeader.
Proof.
  exists 0. split; [intros H; discriminate H|].
  split; [vm_compute; reflexivity|].
  intros zc Hlen.
  destruct (encode_png_zero_file zc Hlen) as [E R].
  exists (png_layout 0 (zc [] 9)). split; [exact E | exact R].
Qed.

Lemma encode_png_in_range (zc : list byte -> Z -> list byte) (size : Z) :
  0 <= size < 2 ^ 32 ->
  Z.of_nat (length (zc (pixel_stream size) 9)) < 2 ^ 32 ->
  _encode_png zc size = Ok (png_layout size (zc (pixel_stream size) 9)).
Proof.
  intros Hs Hl.
  destruct (encode_png_cases zc size) as [(_ & _ & E) | (Hc & _)]; [exact E | lia].
Qed.

(** ** Sizes too large for the machine or for the length field *)












(** ** The workflow *)

Lemma main_body_ready (zc : list byte -> Z -> list byte) (entry : string * Z)
    (w : world) :
  entry_ready zc (dirs w) entry ->
  main_body zc entry w =
  Ok (World (dirs w) (entry_file zc (files w) entry)
        (journal w ++ entry_events zc entry)).
Proof.
  destruct entry as [name size]. intros (Hnd & (d & Hd & Hin) & Hs & Hl).
  cbn [fst snd] in Hnd, Hd, Hin, Hs, Hl.
  unfold main_body. rewrite (encode_png_in_range zc size Hs Hl), bind_Ok.
  fold (icon_path name). unfold write_bytes.
  destruct (decide (icon_path name ∈ dirs w)) as [Hbad|_]; [contradiction|].
  rewrite Hd.
  destruct (decide (d ∈ dirs w)) as [_|Hbad]; [|contradiction].
  rewrite bind_Ok. unfold print, entry_file, entry_events, status_line.
  cbn [dirs files journal fst snd]. rewrite <- app_assoc. reflexivity.
Qed.

Lemma for_each_main_body (zc : list byte -> Z -> list byte)
    (entries : list (string * Z)) (w : world) :
  Forall (entry_ready zc (dirs w)) entries ->
  for_each entries (main_body zc) w =
  Ok (World (dirs w) (foldl (entry_file zc) (files w) entries)
        (journal w ++ concat (entry_events zc <$> entries))).
Proof.
  revert w. induction entries as [|entry entries IH]; intros w Hall.
  - cbn [for_each foldl fmap list_fmap concat]. rewrite app_nil_r.
    destruct w; reflexivity.
  - inversion Hall as [|? ? Hready Hrest]; subst.
    cbn [for_each]. rewrite (main_body_ready zc entry w Hready), bind_Ok.
    rewrite IH by exact Hrest.
    cbn [dirs files journal foldl fmap list_fmap concat].
    rewrite <- app_assoc. reflexivity.
Qed.

Lemma mkdir_iconset (w : world) :
  files w !! "client" = None ->
  files w !! "client/push-package" = None ->
  files w !! "client/push-package/icon.iconset" = None ->
  mkdir ICONSET_DIR w =
  Ok (World ({[ "client/push-package/icon.iconset" ]} ∪
             ({[ "client/push-package" ]} ∪ ({[ "client" ]} ∪ dirs w)))
        (files w) (journal w ++ [EvMkdir "client/push-package/icon.iconset"])).
Proof.
  intros H1 H2 H3. unfold mkdir.
  change (parents ICONSET_DIR ++ [ICONSET_DIR])
    with ["client"; "client/push-package"; "client/push-package/icon.iconset"].
  cbn [mkdir_all]. unfold mkdir_one.
  rewrite H1, bind_Ok, H2, bind_Ok, H3, bind_Ok, bind_Ok. reflexivity.
Qed.

(** Every entry of [SIZES] can be written once the directory is made. *)
Lemma sizes_ready (zc : list byte -> Z -> list byte) (ds : gset string) :
  (forall name size, In (name, size) SIZES -> icon_path name ∉ ds) ->
  (forall size, In size [16; 32; 64; 128; 256] ->
     Z.of_nat (length (zc (pixel_stream size) 9)) < 2 ^ 32) ->
  Forall (entry_ready zc ({[ "client/push-package/icon.iconset" ]} ∪
                          ({[ "client/push-package" ]} ∪ ({[ "client" ]} ∪ ds))))
    SIZES.
Proof.
  intros Hnd Hlen. apply Forall_forall. intros [name size] Hin.
  apply list_elem_of_In in Hin. pose proof (Hnd name size Hin) as Hn.
  unfold entry_ready. cbn [fst snd]. cbn [In SIZES] in Hin.
  destruct Hin as [E|[E|[E|[E|[E|[E|[]]]]]]]; injection E as <- <-;
    (split; [not_made_by_mkdir Hn|]);
    (split; [exists "client/push-package/icon.iconset";
             split; [vm_compute; reflexivity
                    | apply elem_of_union_l, elem_of_singleton; reflexivity]|]);
    (split; [split; [discriminate | reflexivity] | apply Hlen; cbn [In]; tauto]).
Qed.

Lemma main_runs (zc : list byte -> Z -> list byte) (w : world) :
  files w !! "client" = None ->
  files w !! "client/push-package" = None ->
  files w !! "client/push-package/icon.iconset" = None ->
  (forall name size, In (name, size) SIZES -> icon_path name ∉ dirs w) ->
  (forall size, In size [16; 32; 64; 128; 256] ->
     Z.of_nat (length (zc (pixel_stream size) 9)) < 2 ^ 32) ->
  main zc w =
  Ok (World ({[ "client/push-package/icon.iconset" ]} ∪
             ({[ "client/push-package" ]} ∪ ({[ "client" ]} ∪ dirs w)))
        (foldl (entry_file zc) (files w) SIZES)
        (journal w ++ EvMkdir "client/push-package/icon.iconset"
                   :: concat (entry_events zc <$> SIZES))).
Proof.
  intros H1 H2 H3 Hnd Hlen. unfold main.
  rewrite (mkdir_iconset w H1 H2 H3), bind_Ok.
  rewrite for_each_main_body by (apply sizes_ready; assumption).
  cbn [dirs files journal]. rewrite <- app_assoc. reflexivity.
Qed.

Lemma stored_blocks_length_le (fuel : nat) (data : list byte) :
  (length (Stored.blocks fuel data) <= 5 * fuel + length data)%nat.
Proof.
  revert data. induction fuel as [|fuel IH]; intros data; [cbn; lia|].
  cbn [Stored.blocks].
  destruct (Z.of_nat (length data) <=? 65535) eqn:E.
  - cbn [length]. rewrite !length_app. cbn [length Stored.le16]. lia.
  - apply Z.leb_gt in E. cbn [length]. rewrite !length_app, length_take.
    assert (Hmax : Z.of_nat Stored.block_max = 65535) by reflexivity.
    specialize (IH (drop Stored.block_max data)).
    rewrite length_drop in IH. cbn [length Stored.le16]. lia.
Qed.

Lemma stored_compress_length_le (data : list byte) (level : Z) :
  Z.of_nat (length (Stored.compress data level)) <= 11 + 6 * Z.of_nat (length data).
Proof.
  unfold Stored.compress. rewrite !length_app, be32_length. cbn [length].
  pose proof (stored_blocks_length_le (S (length data)) data). lia.
Qed.

Lemma stored_sizes_short (size : Z) :
  In size [16; 32; 64; 128; 256] ->
  Z.of_nat (length (Stored.compress (pixel_stream size) 9)) < 2 ^ 32.
Proof.
  intros Hin. pose proof (stored_compress_length_le (pixel_stream size) 9) as H.
  assert (Hs : 0 <= size <= 256)
    by (cbn [In] in Hin; destruct Hin as [<-|[<-|[<-|[<-|[<-|[]]]]]]; lia).
  rewrite pixel_stream_length in H by lia.
  change (2 ^ 32) with 4294967296. nia.
Qed.

(** ** The workflow's claims *)

(** C2. Started in a world where no regular file stands in the place of
    the output directory or of its parents, none of the six paths is a
    directory, and the five compressed streams are shorter than 2^32
    bytes, [main] ends without an exception; the output directory exists;
    and the files of the world are those it had, with exactly these six
    written: icon_16x16.png, icon_16x16@2x.png, icon_32x32.png,
    icon_32x32@2x.png, icon_128x128.png and icon_256x256.png in the output
    directory, holding what [_encode_png] returns for the sizes 16, 32, 32,
    64, 128 and 256. *)
Theorem main_writes_six_files (zc : list byte -> Z -> list byte) (w : world) :
  files w !! "client" = None ->
  files w !! "client/push-package" = None ->
  files w !! "client/push-package/icon.iconset" = None ->
  (forall name size, In (name, size) SIZES -> icon_path name ∉ dirs w) ->
  (forall size, In size [16; 32; 64; 128; 256] ->
     Z.of_nat (length (zc (pixel_stream size) 9)) < 2 ^ 32) ->
  exists (p16 p32 p64 p128 p256 : list byte) (w' : world),
    main zc w = Ok w' /\
    _encode_png zc 16 = Ok p16 /\ _encode_png zc 32 = Ok p32 /\
    _encode_png zc 64 = Ok p64 /\ _encode_png zc 128 = Ok p128 /\
    _encode_png zc 256 = Ok p256 /\
    "client/push-package/icon.iconset" ∈ dirs w' /\
    files w' =
      <["client/push-package/icon.iconset/icon_256x256.png" := p256]>
      (<["client/push-package/icon.iconset/icon_128x128.png" := p128]>
       (<["client/push-package/icon.iconset/icon_32x32@2x.png" := p64]>
        (<["client/push-package/icon.iconset/icon_32x32.png" := p32]>
         (<["client/push-package/icon.iconset/icon_16x16@2x.png" := p32]>
          (<["client/push-package/icon.iconset/icon_16x16.png" := p16]>
           (files w)))))).
Proof.
  intros H1 H2 H3 Hnd Hlen.
  assert (Henc : forall size, In size [16; 32; 64; 128; 256] ->
            _encode_png zc size = Ok (png_layout size (zc (pixel_stream size) 9))).
  { intros size Hin. apply encode_png_in_range; [|apply Hlen, Hin].
    change (2 ^ 32) with 4294967296.
    cbn [In] in Hin. destruct Hin as [<-|[<-|[<-|[<-|[<-|[]]]]]]; lia. }
  eexists _, _, _, _, _, _.
  split; [apply main_runs; assumption|].
  split; [apply Henc; cbn [In]; tauto|].
  split; [apply Henc; cbn [In]; tauto|].
  split; [apply Henc; cbn [In]; tauto|].
  split; [apply Henc; cbn [In]; tauto|].
  split; [apply Henc; cbn [In]; tauto|].
  split; [cbn [dirs]; apply elem_of_union_l, elem_of_singleton; reflexivity|].
  reflexivity.
Qed.

Lemma main_writes_six_files_witness :
  exists w' : world,
    main Stored.compress (World ∅ ∅ []) = Ok w' /\
    size (files w') = 6%nat.
Proof.
  destruct (main_writes_six_files Stored.compress (World ∅ ∅ []))
    as (p16 & p32 & p64 & p128 & p256 & w' & E & _ & _ & _ & _ & _ & _ & Hf).
  - reflexivity.
  - reflexivity.
  - reflexivity.
  - intros name size _. apply not_elem_of_empty.
  - exact stored_sizes_short.
  - exists w'. split; [exact E|]. rewrite Hf. cbn [files].
    vm_compute. reflexivity.
Defined.

(** C10. [main] goes through [SIZES] in the order it is written: after the
    directory is made, the journal of the run is, for icon_16x16,
    icon_16x16@2x, icon_32x32, icon_32x32@2x, icon_128x128 and icon_256x256
    in this order, the write of the file followed by its console line. *)
Theorem main_journal_order (zc : list byte -> Z -> list byte) (w : world) :
  files w !! "client" = None ->
  files w !! "client/push-package" = None ->
  files w !! "client/push-package/icon.iconset" = None ->
  (forall name size, In (name, size) SIZES -> icon_path name ∉ dirs w) ->
  (forall size, In size [16; 32; 64; 128; 256] ->
     Z.of_nat (length (zc (pixel_stream size) 9)) < 2 ^ 32) ->
  exists (p16 p32 p64 p128 p256 : list byte) (w' : world),
    main zc w = Ok w' /\
    _encode_png zc 16 = Ok p16 /\ _encode_png zc 32 = Ok p32 /\
    _encode_png zc 64 = Ok p64 /\ _encode_png zc 128 = Ok p128 /\
    _encode_png zc 256 = Ok p256 /\
    journal w' = journal w ++
      [ EvMkdir "client/push-package/icon.iconset";
        EvWrite "client/push-package/icon.iconset/icon_16x16.png" p16;
        EvPrint "Wrote client/push-package/icon.iconset/icon_16x16.png (16x16)";
        EvWrite "client/push-package/icon.iconset/icon_16x16@2x.png" p32;
        EvPrint "Wrote client/push-package/icon.iconset/icon_16x16@2x.png (32x32)";
        EvWrite "client/push-package/icon.iconset/icon_32x32.png" p32;
        EvPrint "Wrote client/push-package/icon.iconset/icon_32x32.png (32x32)";
        EvWrite "client/push-package/icon.iconset/icon_32x32@2x.png" p64;
        EvPrint "Wrote client/push-package/icon.iconset/icon_32x32@2x.png (64x64)";
        EvWrite "client/push-package/icon.iconset/icon_128x128.png" p128;
        EvPrint "Wrote client/push-package/icon.iconset/icon_128x128.png (128x128)";
        EvWrite "client/push-package/icon.iconset/icon_256x256.png" p256;
        EvPrint "Wrote client/push-package/icon.iconset/icon_256x256.png (256x256)" ].
Proof.
  intros H1 H2 H3 Hnd Hlen.
  assert (Henc : forall size, In size [16; 32; 64; 128; 256] ->
            _encode_png zc size = Ok (png_layout size (zc (pixel_stream size) 9))).
  { intros size Hin. apply encode_png_in_range; [|apply Hlen, Hin].
    change (2 ^ 32) with 4294967296.
    cbn [In] in Hin. destruct Hin as [<-|[<-|[<-|[<-|[<-|[]]]]]]; lia. }
  eexists _, _, _, _, _, _.
  split; [apply main_runs; assumption|].
  split; [apply Henc; cbn [In]; tauto|].
  split; [apply Henc; cbn [In]; tauto|].
  split; [apply Henc; cbn [In]; tauto|].
  split; [apply Henc; cbn [In]; tauto|].
  split; [apply Henc; cbn [In]; tauto|].
  reflexivity.
Qed.

Lemma main_journal_order_witness :
  exists w' : world,
    main Stored.compress (World ∅ ∅ []) = Ok w' /\
    journal w' !! 0%nat = Some (EvMkdir "client/push-package/icon.iconset") /\
    journal w' !! 12%nat =
      Some (EvPrint "Wrote client/push-package/icon.iconset/icon_256x256.png (256x256)").
Proof.
  destruct (main_journal_order Stored.compress (World ∅ ∅ []))
    as (p16 & p32 & p64 & p128 & p256 & w' & E & _ & _ & _ & _ & _ & Hj).
  - reflexivity.
  - reflexivity.
  - reflexivity.
  - intros name size _. apply not_elem_of_empty.
  - exact stored_sizes_short.
  - exists w'. split; [exact E|]. rewrite Hj. split; reflexivity.
Defined.

(** ** More about the encoder *)

Lemma encode_png_ok_inv (zc : list byte -> Z -> list byte) (size : Z) (bs : list byte) :
  _encode_png zc size = Ok bs ->
  0 <= size < 2 ^ 32 /\
  Z.of_nat (length (zc (pixel_stream size) 9)) < 2 ^ 32 /\
  bs = png_layout size (zc (pixel_stream size) 9).
Proof.
  intros H.
  destruct (encode_png_cases zc size) as [(Hs & Hl & E) | (_ & E)];
    rewrite E in H; [|discriminate H].
  injection H as <-. split; [exact Hs|]. split; [exact Hl | reflexivity].
Qed.

Lemma layout_size (size : Z) (idat : list byte) :
  0 <= size < 2 ^ 32 ->
  be_to_Z (take 4 (drop 16 (png_layout size idat))) = size.
Proof.
  intros Hs.
  change (take 4 (drop 16 (png_layout size idat))) with (be32 size).
  apply be_to_Z_be32, Hs.
Qed.

(** X1. [_chunk] loses nothing: a block comes from one tag and one payload
    only, whatever the length of the tag. *)
Theorem chunk_injective (tag1 data1 tag2 data2 out : list byte) :
  _chunk tag1 data1 = Ok out ->
  _chunk tag2 data2 = Ok out ->
  tag1 = tag2 /\ data1 = data2.
Proof.
  intros H1 H2.
  apply chunk_spec in H1 as [L1 ->]. apply chunk_spec in H2 as [L2 E].
  unfold block in E.
  apply app_inj_1 in E as [E4 E]; [|reflexivity].
  assert (Hlen : length data1 = length data2).
  { apply (f_equal be_to_Z) in E4. rewrite !be_to_Z_be32 in E4 by lia. lia. }
  rewrite !app_assoc in E. apply app_inj_2 in E as [E _]; [|reflexivity].
  apply app_inj_2 in E; [exact E | exact Hlen].
Qed.

Lemma chunk_injective_witness :
  exists out : list byte,
    _chunk (bytes_lit "IDAT") [x01; x02] = Ok out /\
    forall tag data : list byte,
      _chunk tag data = Ok out -> tag = bytes_lit "IDAT" /\ data = [x01; x02].
Proof.
  exists (block (bytes_lit "IDAT") [x01; x02]).
  assert (E : _chunk (bytes_lit "IDAT") [x01; x02] = Ok (block (bytes_lit "IDAT") [x01; x02]))
    by (apply chunk_returns; reflexivity).
  split; [exact E|].
  intros tag data H.
  exact (chunk_injective tag data (bytes_lit "IDAT") [x01; x02] _ H E).
Defined.

(** X2. The file [_encode_png] returns is 57 bytes longer than the compressed
    stream: the signature (8), the header block (25), the frame of the data
    block (12) and the terminator block (12). *)
Theorem encode_png_length (zc : list byte -> Z -> list byte) (size : Z)
    (bs : list byte) :
  _encode_png zc size = Ok bs ->
  length bs = (57 + length (zc (raw_stream pixel size size) 9%Z))%nat.
Proof.
  intros H. apply encode_png_ok_inv in H as (_ & _ & ->).
  rewrite raw_stream_pixels. apply png_layout_length.
Qed.

Lemma encode_png_length_witness :
  exists bs : list byte,
    _encode_png Stored.compress 2 = Ok bs /\ length bs = 86%nat.
Proof.
  assert (E : _encode_png Stored.compress 2 =
              Ok (png_layout 2 (Stored.compress (pixel_stream 2) 9)))
    by (apply encode_png_in_range; [split; [discriminate | reflexivity] | reflexivity]).
  eexists. split; [exact E|].
  rewrite (encode_png_length Stored.compress 2 _ E). reflexivity.
Defined.

(** X3. Files of different sizes differ, whatever the compressor made of the
    pixels: the size is read back from bytes 16 to 19 of the file. *)
Theorem encode_png_size_injective (zc1 zc2 : list byte -> Z -> list byte)
    (size1 size2 : Z) (bs : list byte) :
  _encode_png zc1 size1 = Ok bs ->
  _encode_png zc2 size2 = Ok bs ->
  size1 = size2 /\ be_to_Z (take 4 (drop 16 bs)) = size1.
Proof.
  intros H1 H2.
  apply encode_png_ok_inv in H1 as (Hs1 & _ & E1).
  apply encode_png_ok_inv in H2 as (Hs2 & _ & E2).
  pose proof (layout_size size1 (zc1 (pixel_stream size1) 9) Hs1) as R1.
  pose proof (layout_size size2 (zc2 (pixel_stream size2) 9) Hs2) as R2.
  rewrite <- E1 in R1. rewrite <- E2 in R2.
  split; [rewrite <- R1; exact R2 | exact R1].
Qed.

Lemma encode_png_size_injective_witness :
  exists bs : list byte,
    _encode_png Stored.compress 2 = Ok bs /\
    be_to_Z (take 4 (drop 16 bs)) = 2 /\
    forall size : Z, _encode_png Stored.compress size = Ok bs -> size = 2.
Proof.
  assert (E : _encode_png Stored.compress 2 =
              Ok (png_layout 2 (Stored.compress (pixel_stream 2) 9)))
    by (apply encode_png_in_range; [split; [discriminate | reflexivity] | reflexivity]).
  eexists. split; [exact E|].
  split; [exact (proj2 (encode_png_size_injective _ _ 2 2 _ E E))|].
  intros size H.
  exact (proj1 (encode_png_size_injective _ _ size 2 _ H E)).
Defined.

Lemma pixel_at_solid_outside (size x y : Z) (c : rgba) :
  0 <= size ->
  ~ (0 <= x < size /\ 0 <= y < size) ->
  pixel_at (Image size size (solid_rows size c)) x y = None.
Proof.
  intros Hs Hout. unfold pixel_at, solid_rows. cbn [img_rows].
  destruct ((0 <=? x) && (0 <=? y)) eqn:E; [|reflexivity].
  apply andb_true_iff in E as [Ex Ey]. apply Z.leb_le in Ex. apply Z.leb_le in Ey.
  destruct (Z_lt_ge_dec y size) as [Hy|Hy].
  - rewrite lookup_replicate_2 by lia. cbn [mbind option_bind].
    apply lookup_replicate_None. lia.
  - rewrite (proj1 (lookup_replicate_None _ _ _)) by lia. reflexivity.
Qed.

(** X4. Round trip, for every size a PNG header can hold (1 to 2^31 - 1) and
    not only the sizes of [SIZES]: the reference reader turns what
    [_encode_png] returns into the image that has the colour at every
    position inside the square and no pixel outside it. *)
Theorem encode_png_roundtrip (zc : list byte -> Z -> list byte)
    (zd : list byte -> option (list byte)) (size : Z) :
  1 <= size < 2 ^ 31 ->
  zd (zc (raw_stream pixel size size) 9) = Some (raw_stream pixel size size) ->
  Z.of_nat (length (zc (raw_stream pixel size size) 9)) < 2 ^ 31 ->
  exists (bs : list byte) (img : image),
    _encode_png zc size = Ok bs /\
    png_read zd bs = Ok img /\
    img_width img = size /\ img_height img = size /\
    forall x y : Z,
      pixel_at img x y =
      if (0 <=? x) && (x <? size) && ((0 <=? y) && (y <? size))
      then Some (0x3B, 0x82, 0xF6, 0xFF) else None.
Proof.
  rewrite raw_stream_pixels. intros Hs Hzd Hlen.
  assert (H31 : 2 ^ 32 = 2 * 2 ^ 31) by reflexivity.
  exists (png_layout size (zc (pixel_stream size) 9)),
    (Image size size (solid_rows size (0x3B, 0x82, 0xF6, 0xFF))).
  split; [apply encode_png_in_range; lia|].
  split; [apply png_read_layout; assumption|].
  split; [reflexivity|]. split; [reflexivity|].
  intros x y.
  destruct ((0 <=? x) && (x <? size) && ((0 <=? y) && (y <? size))) eqn:E.
  - apply andb_true_iff in E as [Ex Ey].
    apply andb_true_iff in Ex as [Ex1 Ex2]. apply andb_true_iff in Ey as [Ey1 Ey2].
    apply Z.leb_le in Ex1. apply Z.leb_le in Ey1.
    apply Z.ltb_lt in Ex2. apply Z.ltb_lt in Ey2.
    apply pixel_at_solid; lia.
  - apply pixel_at_solid_outside; [lia|]. intros [Hx Hy].
    rewrite (proj2 (Z.leb_le 0 x)), (proj2 (Z.leb_le 0 y)) in E by lia.
    rewrite (proj2 (Z.ltb_lt x size)), (proj2 (Z.ltb_lt y size)) in E by lia.
    discriminate E.
Qed.

Lemma encode_png_roundtrip_witness :
  exists (bs : list byte) (img : image),
    _encode_png Stored.compress 3 = Ok bs /\
    png_read Stored.decompress bs = Ok img /\
    pixel_at img 2 2 = Some (0x3B, 0x82, 0xF6, 0xFF) /\
    pixel_at img 3 0 = None.
Proof.
  destruct (encode_png_roundtrip Stored.compress Stored.decompress 3)
    as (bs & img & E & R & _ & _ & Hpx).
  - split; [discriminate | reflexivity].
  - vm_compute. reflexivity.
  - vm_compute. reflexivity.
  - exists bs, img. split; [exact E|]. split; [exact R|].
    split; apply Hpx.
Defined.

(** ** More about the workflow *)

Lemma write_bytes_inv (p : string) (data : list byte) (w w' : world) :
  write_bytes p data w = Ok w' ->
  (p ∉ dirs w) /\
  w' = World (dirs w) (<[p := data]> (files w)) (journal w ++ [EvWrite p data]).
Proof.
  unfold write_bytes. intros H.
  destruct (decide (p ∈ dirs w)) as [Hin|Hnin]; [discriminate H|].
  split; [exact Hnin|].
  destruct (last (parents p)) as [d|].
  - destruct (decide (d ∈ dirs w)); [|discriminate H].
    injection H as <-. reflexivity.
  - injection H as <-. reflexivity.
Qed.

Lemma main_body_inv (zc : list byte -> Z -> list byte) (entry : string * Z)
    (w w' : world) :
  main_body zc entry w = Ok w' ->
  (icon_path entry.1 ∉ dirs w) /\
  0 <= entry.2 < 2 ^ 32 /\
  Z.of_nat (length (zc (pixel_stream entry.2) 9)) < 2 ^ 32 /\
  w' = World (dirs w) (entry_file zc (files w) entry)
         (journal w ++ entry_events zc entry).
Proof.
  destruct entry as [name size]. cbn [fst snd]. unfold main_body. intros H.
  destruct (encode_png_cases zc size) as [(Hs & Hl & E) | (_ & E)];
    rewrite E in H; [rewrite bind_Ok in H | rewrite bind_Raise in H; discriminate H].
  fold (icon_path name) in H.
  destruct (write_bytes (icon_path name)
              (png_layout size (zc (pixel_stream size) 9)) w) as [w1|e] eqn:Ew;
    [rewrite bind_Ok in H | rewrite bind_Raise in H; discriminate H].
  apply write_bytes_inv in Ew as [Hnd ->].
  unfold print in H. cbn [dirs files journal] in H. injection H as <-.
  split; [exact Hnd|]. split; [exact Hs|]. split; [exact Hl|].
  unfold entry_file, entry_events, status_line. cbn [fst snd].
  rewrite <- app_assoc. reflexivity.
Qed.

Lemma for_each_main_body_inv (zc : list byte -> Z -> list byte)
    (entries : list (string * Z)) (w w' : world) :
  for_each entries (main_body zc) w = Ok w' ->
  Forall (fun entry =>
            (icon_path entry.1 ∉ dirs w) /\
            0 <= entry.2 < 2 ^ 32 /\
            Z.of_nat (length (zc (pixel_stream entry.2) 9)) < 2 ^ 32) entries /\
  w' = World (dirs w) (foldl (entry_file zc) (files w) entries)
         (journal w ++ concat (entry_events zc <$> entries)).
Proof.
  revert w. induction entries as [|entry entries IH]; intros w H.
  - cbn [for_each] in H. injection H as <-. split; [constructor|].
    cbn [foldl fmap list_fmap concat]. rewrite app_nil_r. destruct w; reflexivity.
  - cbn [for_each] in H.
    destruct (main_body zc entry w) as [w1|e] eqn:E1;
      [rewrite bind_Ok in H | rewrite bind_Raise in H; discriminate H].
    apply main_body_inv in E1 as (Hnd & Hs & Hl & ->).
    apply IH in H as [Hall ->]. cbn [dirs files journal] in *.
    split; [constructor; [split; [exact Hnd | split; [exact Hs | exact Hl]] | exact Hall]|].
    cbn [foldl fmap list_fmap concat]. rewrite <- app_assoc. reflexivity.
Qed.

Lemma mkdir_iconset_inv (w w0 : world) :
  mkdir ICONSET_DIR w = Ok w0 ->
  files w !! "client" = None /\
  files w !! "client/push-package" = None /\
  files w !! "client/push-package/icon.iconset" = None.
Proof.
  unfold mkdir.
  change (parents ICONSET_DIR ++ [ICONSET_DIR])
    with ["client"; "client/push-package"; "client/push-package/icon.iconset"].
  cbn [mkdir_all]. unfold mkdir_one. intros H.
  destruct (files w !! "client") as [?|];
    [rewrite !bind_Raise in H; discriminate H | rewrite bind_Ok in H].
  destruct (files w !! "client/push-package") as [?|];
    [rewrite !bind_Raise in H; discriminate H | rewrite bind_Ok in H].
  destruct (files w !! "client/push-package/icon.iconset") as [?|];
    [rewrite !bind_Raise in H; discriminate H |].
  split; [reflexivity|]. split; reflexivity.
Qed.

(** What a run of [main] that ends normally says of the world it began in. *)
Lemma main_ok_inv (zc : list byte -> Z -> list byte) (w w' : world) :
  main zc w = Ok w' ->
  files w !! "client" = None /\
  files w !! "client/push-package" = None /\
  files w !! "client/push-package/icon.iconset" = None /\
  (forall name size, In (name, size) SIZES -> icon_path name ∉ dirs w) /\
  (forall size, In size [16; 32; 64; 128; 256] ->
     Z.of_nat (length (zc (pixel_stream size) 9)) < 2 ^ 32).
Proof.
  unfold main. intros H.
  destruct (mkdir ICONSET_DIR w) as [w0|e] eqn:Em;
    [rewrite bind_Ok in H | rewrite bind_Raise in H; discriminate H].
  destruct (mkdir_iconset_inv w w0 Em) as (H1 & H2 & H3).
  rewrite (mkdir_iconset w H1 H2 H3) in Em. injection Em as <-.
  apply for_each_main_body_inv in H as [Hall _]. cbn [dirs] in Hall.
  rewrite Forall_forall in Hall.
  split; [exact H1|]. split; [exact H2|]. split; [exact H3|]. split.
  - intros name size Hin Hd.
    apply list_elem_of_In in Hin. destruct (Hall _ Hin) as (Hnd & _).
    apply Hnd. cbn [fst]. do 3 apply elem_of_union_r. exact Hd.
  - intros size Hin. cbn [In] in Hin.
    destruct Hin as [<-|[<-|[<-|[<-|[<-|[]]]]]].
    + apply (Hall ("icon_16x16", 16)). apply list_elem_of_In. cbn [In SIZES]. tauto.
    + apply (Hall ("icon_32x32", 32)). apply list_elem_of_In. cbn [In SIZES]. tauto.
    + apply (Hall ("icon_32x32@2x", 64)). apply list_elem_of_In. cbn [In SIZES]. tauto.
    + apply (Hall ("icon_128x128", 128)). apply list_elem_of_In. cbn [In SIZES]. tauto.
    + apply (Hall ("icon_256x256", 256)). apply list_elem_of_In. cbn [In SIZES]. tauto.
Qed.

Lemma lookup_entry_files_ne (zc : list byte -> Z -> list byte)
    (entries : list (string * Z)) (fs : gmap string (list byte)) (p : string) :
  (forall entry, In entry entries -> p <> icon_path entry.1) ->
  foldl (entry_file zc) fs entries !! p = fs !! p.
Proof.
  revert fs. induction entries as [|entry entries IH]; intros fs Hne; [reflexivity|].
  cbn [foldl]. rewrite IH by (intros e He; apply Hne; right; exact He).
  unfold entry_file. apply lookup_insert_ne.
  intros Heq. apply (Hne entry); [left; reflexivity | symmetry; exact Heq].
Qed.

Lemma lookup_sizes_files (zc : list byte -> Z -> list byte)
    (fs : gmap string (list byte)) (name : string) (size : Z) :
  In (name, size) SIZES ->
  foldl (entry_file zc) fs SIZES !! icon_path name =
  Some (png_layout size (zc (pixel_stream size) 9)).
Proof.
  intros Hin. unfold SIZES in *. cbn [In] in Hin. cbn [foldl].
  unfold entry_file. cbn [fst snd].
  destruct Hin as [E|[E|[E|[E|[E|[E|[]]]]]]]; injection E as <- <-;
    repeat (rewrite lookup_insert_ne by other_icon); apply lookup_insert_eq.
Qed.


(** X5. [main] ends normally only in these worlds: no regular file stands
    where the output directory or one of its two parents is to be, none of
    the six output paths is a directory, and each compressed stream is
    short enough for the length field of its block. (These conditions are
    needed; they are not all a machine asks: the rights on the directories
    and the room on the disk are not in the world.) *)
Theorem main_succeeds_only_if (zc : list byte -> Z -> list byte) (w w' : world) :
  main zc w = Ok w' ->
  files w !! "client" = None /\
  files w !! "client/push-package" = None /\
  files w !! "client/push-package/icon.iconset" = None /\
  (forall name size, In (name, size) SIZES ->
     path_join ICONSET_DIR (name +:+ ".png") ∉ dirs w) /\
  (forall size, In size [16; 32; 64; 128; 256] ->
     Z.of_nat (length (zc (raw_stream pixel size size) 9)) < 2 ^ 32).
Proof.
  intros H. apply main_ok_inv in H as (H1 & H2 & H3 & Hnd & Hlen).
  split; [exact H1|]. split; [exact H2|]. split; [exact H3|].
  split; [exact Hnd|].
  intros size Hin. rewrite raw_stream_pixels. apply Hlen, Hin.
Qed.

Lemma main_succeeds_only_if_witness :
  exists w' : world,
    main Stored.compress (World ∅ {[ "notes.txt" := [x41] ]} []) = Ok w' /\
    ("client/push-package/icon.iconset/icon_16x16.png" ∉ (∅ : gset string)) /\
    Z.of_nat (length (Stored.compress (raw_stream pixel 16 16) 9)) < 2 ^ 32.
Proof.
  assert (E : exists w' : world,
             main Stored.compress (World ∅ {[ "notes.txt" := [x41] ]} []) = Ok w').
  { eexists. apply main_runs.
    - apply lookup_singleton_ne. discriminate.
    - apply lookup_singleton_ne. discriminate.
    - apply lookup_singleton_ne. discriminate.
    - intros name size _. apply not_elem_of_empty.
    - exact stored_sizes_short. }
  destruct E as [w' E]. exists w'. split; [exact E|].
  destruct (main_succeeds_only_if Stored.compress _ _ E) as (_ & _ & _ & Hnd & Hlen).
  split.
  - apply (Hnd "icon_16x16" 16). unfold SIZES. cbn [In]. tauto.
  - apply Hlen. cbn [In]. tauto.
Defined.



(** X7. [main] only adds: after a run the directories are those there were,
    with the output directory and its two parents; and a path that is not
    one of the six output paths holds what it held before (or nothing, as
    before). *)
Theorem main_only_adds (zc : list byte -> Z -> list byte) (w w' : world) :
  main zc w = Ok w' ->
  dirs w' = {[ "client/push-package/icon.iconset" ]} ∪
            ({[ "client/push-package" ]} ∪ ({[ "client" ]} ∪ dirs w)) /\
  forall p : string,
    (forall name size, In (name, size) SIZES ->
       p <> path_join ICONSET_DIR (name +:+ ".png")) ->
    files w' !! p = files w !! p.
Proof.
  intros H. pose proof (main_ok_inv zc w w' H) as (H1 & H2 & H3 & Hnd & Hlen).
  rewrite (main_runs zc w H1 H2 H3 Hnd Hlen) in H. injection H as <-.
  split; [reflexivity|].
  intros p Hp. change (foldl (entry_file zc) (files w) SIZES !! p = files w !! p).
  apply lookup_entry_files_ne. intros [name size] Hin. apply (Hp name size Hin).
Qed.

Lemma main_only_adds_witness :
  exists w' : world,
    main Stored.compress (World ∅ {[ "notes.txt" := [x41] ]} []) = Ok w' /\
    ("client/push-package" ∈ dirs w') /\
    files w' !! "notes.txt" = Some [x41].
Proof.
  assert (E : exists w' : world,
             main Stored.compress (World ∅ {[ "notes.txt" := [x41] ]} []) = Ok w').
  { eexists. apply main_runs.
    - apply lookup_singleton_ne. discriminate.
    - apply lookup_singleton_ne. discriminate.
    - apply lookup_singleton_ne. discriminate.
    - intros name size _. apply not_elem_of_empty.
    - exact stored_sizes_short. }
  destruct E as [w' E]. exists w'. split; [exact E|].
  destruct (main_only_adds Stored.compress _ _ E) as [Hd Hf].
  split.
  - rewrite Hd. apply elem_of_union_r, elem_of_union_l, elem_of_singleton. reflexivity.
  - rewrite Hf.
    + apply lookup_singleton_eq.
    + intros name size Hin. unfold SIZES in Hin. cbn [In] in Hin.
      destruct Hin as [E'|[E'|[E'|[E'|[E'|[E'|[]]]]]]]; injection E' as <- <-; other_icon.
Defined.







(** X10. End to end: after a run of [main], each of the six files is in place
    and is read by the reference reader as the solid square of its size
    (the reader's inflate being assumed to undo the encoder's deflate on
    the pixels of that size). *)
Theorem main_files_decode (zc : list byte -> Z -> list byte)
    (zd : list byte -> option (list byte)) (w w' : world) (name : string) (size : Z) :
  main zc w = Ok w' ->
  In (name, size) SIZES ->
  zd (zc (raw_stream pixel size size) 9) = Some (raw_stream pixel size size) ->
  Z.of_nat (length (zc (raw_stream pixel size size) 9)) < 2 ^ 31 ->
  exists bs : list byte,
    files w' !! path_join ICONSET_DIR (name +:+ ".png") = Some bs /\
    _encode_png zc size = Ok bs /\
    png_read zd bs = Ok (Image size size (solid_rows size (0x3B, 0x82, 0xF6, 0xFF))).
Proof.
  rewrite raw_stream_pixels. intros H Hin Hzd Hl.
  pose proof (main_ok_inv zc w w' H) as (H1 & H2 & H3 & Hnd & Hlen).
  rewrite (main_runs zc w H1 H2 H3 Hnd Hlen) in H. injection H as <-.
  assert (Hs : 1 <= size < 2 ^ 31).
  { change (2 ^ 31) with 2147483648. unfold SIZES in Hin. cbn [In] in Hin.
    destruct Hin as [E|[E|[E|[E|[E|[E|[]]]]]]]; injection E as <- <-; lia. }
  assert (H31 : 2 ^ 32 = 2 * 2 ^ 31) by reflexivity.
  exists (png_layout size (zc (pixel_stream size) 9)).
  split; [apply (lookup_sizes_files zc (files w) name size Hin)|].
  split; [apply encode_png_in_range; lia|].
  apply png_read_layout; assumption.
Qed.

Lemma main_files_decode_witness :
  exists (w' : world) (bs : list byte),
    main Stored.compress (World ∅ ∅ []) = Ok w' /\
    files w' !! "client/push-package/icon.iconset/icon_16x16.png" = Some bs /\
    png_read Stored.decompress bs =
    Ok (Image 16 16 (solid_rows 16 (0x3B, 0x82, 0xF6, 0xFF))).
Proof.
  assert (E : exists w' : world, main Stored.compress (World ∅ ∅ []) = Ok w').
  { eexists. apply main_runs.
    - reflexivity.
    - reflexivity.
    - reflexivity.
    - intros name size _. apply not_elem_of_empty.
    - exact stored_sizes_short. }
  destruct E as [w' E].
  destruct (main_files_decode Stored.compress Stored.decompress _ _ "icon_16x16" 16 E)
    as (bs & Hf & _ & R).
  - unfold SIZES. cbn [In]. tauto.
  - vm_compute. reflexivity.
  - vm_compute. reflexivity.
  - exists w', bs. split; [exact E|]. split; [exact Hf | exact R].
Defined.

(** X12. [_chunk] checks nothing of the tag: with a tag of any length, empty or
    longer than four bytes, it returns the block, which is then eight
    bytes longer than tag and payload together and holds the tag from its
    fifth byte on. That a tag has four bytes is left to the caller. *)
Theorem chunk_any_tag (tag data : list byte) :
  Z.of_nat (length data) < 2 ^ 32 ->
  exists out : list byte,
    _chunk tag data = Ok out /\
    length out = (length tag + length data + 8)%nat /\
    take (length tag) (drop 4 out) = tag /\
    be_to_Z (take 4 out) = Z.of_nat (length data).
Proof.
  intros Hlen. exists (block tag data).
  split; [apply chunk_returns, Hlen|].
  split; [apply block_length|].
  unfold block. split.
  - rewrite (drop_app_length' (be32 (Z.of_nat (length data)))) by reflexivity.
    apply take_app_length.
  - rewrite (take_app_length' (be32 (Z.of_nat (length data)))) by reflexivity.
    apply be_to_Z_be32. lia.
Qed.

Lemma chunk_any_tag_witness :
  exists out : list byte,
    _chunk [] [x2a] = Ok out /\ length out = 9%nat /\
    _chunk (bytes_lit "tEXtra") [] = Ok (x00 :: x00 :: x00 :: x00 :: bytes_lit "tEXtra"
                                          ++ be32 (crc32 (bytes_lit "tEXtra"))).
Proof.
  destruct (chunk_any_tag [] [x2a]) as (out & E & Hl & _); [reflexivity|].
  exists out. split; [exact E|]. split; [exact Hl|].
  apply chunk_returns. reflexivity.
Defined.

(** X13. After a run of [main], two of the six files hold the same bytes
    exactly when their entries of [SIZES] have the same size: the files of
    icon_16x16@2x and icon_32x32 are equal, every other pair differs. *)
Theorem main_files_equal_iff (zc : list byte -> Z -> list byte) (w w' : world)
    (name1 name2 : string) (size1 size2 : Z) :
  main zc w = Ok w' ->
  In (name1, size1) SIZES ->
  In (name2, size2) SIZES ->
  is_Some (files w' !! path_join ICONSET_DIR (name1 +:+ ".png")) /\
  (files w' !! path_join ICONSET_DIR (name1 +:+ ".png") =
   files w' !! path_join ICONSET_DIR (name2 +:+ ".png") <-> size1 = size2).
Proof.
  intros H Hin1 Hin2.
  pose proof (main_ok_inv zc w w' H) as (H1 & H2 & H3 & Hnd & Hlen).
  rewrite (main_runs zc w H1 H2 H3 Hnd Hlen) in H. injection H as <-.
  change (is_Some (foldl (entry_file zc) (files w) SIZES !! icon_path name1) /\
          (foldl (entry_file zc) (files w) SIZES !! icon_path name1 =
           foldl (entry_file zc) (files w) SIZES !! icon_path name2 <-> size1 = size2)).
  rewrite (lookup_sizes_files zc (files w) name1 size1 Hin1).
  rewrite (lookup_sizes_files zc (files w) name2 size2 Hin2).
  assert (Hs1 : 0 <= size1 < 2 ^ 32).
  { clear - Hin1. unfold SIZES in Hin1. cbn [In] in Hin1.
    destruct Hin1 as [E1|[E1|[E1|[E1|[E1|[E1|[]]]]]]]; injection E1 as <- <-;
      split; first [discriminate | reflexivity]. }
  assert (Hs2 : 0 <= size2 < 2 ^ 32).
  { clear - Hin2. unfold SIZES in Hin2. cbn [In] in Hin2.
    destruct Hin2 as [E2|[E2|[E2|[E2|[E2|[E2|[]]]]]]]; injection E2 as <- <-;
      split; first [discriminate | reflexivity]. }
  pose proof (layout_size size1 (zc (pixel_stream size1) 9) Hs1) as R1.
  pose proof (layout_size size2 (zc (pixel_stream size2) 9) Hs2) as R2.
  split; [eexists; reflexivity|]. split.
  - intros E. apply (inj Some) in E. rewrite E in R1. rewrite <- R1. exact R2.
  - intros ->. reflexivity.
Qed.

Lemma main_files_equal_iff_witness :
  exists w' : world,
    main Stored.compress (World ∅ ∅ []) = Ok w' /\
    files w' !! "client/push-package/icon.iconset/icon_16x16@2x.png" =
    files w' !! "client/push-package/icon.iconset/icon_32x32.png" /\
    files w' !! "client/push-package/icon.iconset/icon_16x16.png" <>
    files w' !! "client/push-package/icon.iconset/icon_32x32.png".
Proof.
  assert (E : exists w' : world, main Stored.compress (World ∅ ∅ []) = Ok w').
  { eexists. apply main_runs.
    - reflexivity.
    - reflexivity.
    - reflexivity.
    - intros name size _. apply not_elem_of_empty.
    - exact stored_sizes_short. }
  destruct E as [w' E]. exists w'. split; [exact E|]. split.
  - apply (main_files_equal_iff Stored.compress _ w' "icon_16x16@2x" "icon_32x32" 32 32 E).
    + unfold SIZES. cbn [In]. tauto.
    + unfold SIZES. cbn [In]. tauto.
    + reflexivity.
  - intros Heq.
    apply (main_files_equal_iff Stored.compress _ w' "icon_16x16" "icon_32x32" 16 32 E)
      in Heq.
    + discriminate Heq.
    + unfold SIZES. cbn [In]. tauto.
    + unfold SIZES. cbn [In]. tauto.
Defined.
